(** * rpc-websockets: the JSON-RPC 2.0 client over a WebSocket

    A shallow embedding of [src/lib/client.js] (class [Client]) and the
    properties of its request registry, its notification dispatch and its
    reconnection policy.

    Conventions of the embedding.
    - JavaScript values are the inductive [value]. Numbers are the integers
      that a JavaScript number holds exactly (request ids, close codes,
      counters, lengths): fractional numbers are not represented, and a
      counter is taken below 2^53, where [++] is exact. Such a number prints
      as its decimal numeral; where a property prints a number that a
      message brings, it says that the number is [decimal], below 10^21,
      from where on JavaScript prints an exponent. A string is the sequence
      of its code units. An object lists its own properties, each name once,
      as [JSON.parse] builds it.
    - A method or handler returns an [outcome]: the client after the code ran,
      the calls it made on its collaborators (the socket, the promise
      callbacks, the listeners, the timer) in order, and how it completed.
    - Built-ins of the host that the client only calls ([JSON.parse],
      [JSON.stringify] and the numeric reading of a string) are the fields of
      the class [Host]. *)

From stdpp Require Import gmap strings list pretty sorting.

Local Open Scope Z_scope.

(** ** JavaScript values *)

#[local] Unset Elimination Schemes.

Inductive value : Type :=
| VUndef
| VNull
| VBool (b : bool)
| VNum (n : Z)
| VStr (s : string)
| VArr (items : list value)
| VObj (members : list (string * value))
| VErr (message : string).

#[local] Set Elimination Schemes.

(** [new Error(message)] *)
Definition Error (message : string) : value := VErr message.

(** The error the engine throws when a property of [undefined] or [null] is
    read, or when something that is not a function is called. *)
Definition TypeError : value := VErr "TypeError".

(** ToBoolean: what [if (v)], [!v] and [v || w] test. *)
Definition truthy (v : value) : bool :=
  match v with
  | VUndef | VNull => false
  | VBool b => b
  | VNum n => negb (n =? 0)
  | VStr s => negb (String.eqb s "")
  | VArr _ | VObj _ | VErr _ => true
  end.

(** [v || w] *)
Definition js_or (v w : value) : value := if truthy v then v else w.

(** ToString of a value that has one, which is also the property key of
    [o[v]]. An array joins its items with commas, [undefined] and [null]
    items printing as nothing. A number prints as its decimal numeral, as
    JavaScript prints the integers below 10^21 in magnitude ([decimal]
    below); an object prints as ["[object Object]"], which is what
    [Object.prototype.toString] gives ([text_of] below tells when the
    conversion throws instead). *)
Fixpoint to_string (v : value) : string :=
  match v with
  | VUndef => "undefined"
  | VNull => "null"
  | VBool true => "true"
  | VBool false => "false"
  | VNum n => pretty n
  | VStr s => s
  | VArr items =>
      let item (x : value) : string :=
        match x with VUndef | VNull => "" | _ => to_string x end in
      (fix join (l : list value) : string :=
         match l with
         | [] => ""
         | [x] => item x
         | x :: rest => item x +:+ "," +:+ join rest
         end) items
  | VObj _ => "[object Object]"
  | VErr "" => "Error"
  | VErr m => "Error: " +:+ m
  end.

(** Own property of an object literal, by name. *)
Fixpoint own (members : list (string * value)) (k : string) : option value :=
  match members with
  | [] => None
  | (k', v) :: rest => if String.eqb k' k then Some v else own rest k
  end.

(** ToString (and ToPropertyKey, and the string that ToNumber reads) of any
    value: [None] when the conversion throws a TypeError. An object with an
    own member [toString] has no primitive value, since no value of a message
    is a function: [Object.prototype.valueOf] gives the object back and the
    own [toString] cannot be called. An array prints its items, and throws
    when one of them does. *)
Fixpoint text_of (v : value) : option string :=
  match v with
  | VArr items =>
      let item (x : value) : option string :=
        match x with VUndef | VNull => Some "" | _ => text_of x end in
      (fix join (l : list value) : option string :=
         match l with
         | [] => Some ""
         | [x] => item x
         | x :: rest =>
             match item x, join rest with
             | Some a, Some b => Some (a +:+ "," +:+ b)
             | _, _ => None
             end
         end) items
  | VObj members =>
      match own members "toString" with
      | Some _ => None
      | None => Some "[object Object]"
      end
  | _ => Some (to_string v)
  end.

(** A value that can be used as a property key: [o[v]] does not throw. *)
Definition keyed (v : value) : bool :=
  match text_of v with Some _ => true | None => false end.

(** A value whose numbers print in decimal: the numbers in it that ToString
    reaches (its own, and those of the arrays in it) are below 10^21 in
    magnitude. *)
Fixpoint decimal (v : value) : bool :=
  match v with
  | VNum n => Z.abs n <? 10 ^ 21
  | VArr items => forallb decimal items
  | _ => true
  end.

(** The one-character strings of a string, [s[0]], [s[1]], ... *)
Fixpoint chars (s : string) : list value :=
  match s with
  | EmptyString => []
  | String c rest => VStr (String c EmptyString) :: chars rest
  end.

(** [v.k] for the member names the client reads ([notification], [params],
    [id], [error], [result], [length]); none of them is inherited from a
    prototype except [length] of arrays and strings. [None] is the TypeError
    of reading a property of [undefined] or [null]. *)
Definition get (v : value) (k : string) : option value :=
  match v with
  | VUndef | VNull => None
  | VObj members => Some (default VUndef (own members k))
  | VArr items =>
      Some (if String.eqb k "length" then VNum (Z.of_nat (length items)) else VUndef)
  | VStr s =>
      Some (if String.eqb k "length" then VNum (Z.of_nat (String.length s)) else VUndef)
  | VErr m => Some (if String.eqb k "message" then VStr m else VUndef)
  | VBool _ | VNum _ => Some VUndef
  end.

(** [v[i]] for an index [i = 0, 1, ...] on a value that is neither
    [undefined] nor [null]. *)
Definition index (v : value) (i : nat) : value :=
  match v with
  | VArr items => default VUndef (items !! i)
  | VStr s => default VUndef (chars s !! i)
  | VObj members => default VUndef (own members (pretty (Z.of_nat i)))
  | _ => VUndef
  end.

(** ** The host *)

Class Host := {
  (** [JSON.parse(text)]; [None] when it throws a SyntaxError. *)
  JSON_parse : string -> option value;
  (** [JSON.stringify(v)] *)
  JSON_stringify : value -> string;
  (** The numeric reading of a string (StringToNumber) as the bound of
      [for (i = 0; i < s; i++)]: the number of rounds of the loop, [None]
      when the bound is infinite. *)
  string_bound : string -> option nat;
}.

(** The number of rounds of [for (let i = 0; i < bound; i++)], by ToNumber
    of the bound; an array or object is first read as a string. *)
Definition rounds {host : Host} (bound : value) : option nat :=
  match bound with
  | VUndef => Some 0%nat
  | VNull => Some 0%nat
  | VBool b => Some (if b then 1%nat else 0%nat)
  | VNum n => Some (Z.to_nat n)
  | VStr s => string_bound s
  | VArr _ | VObj _ | VErr _ => string_bound (to_string bound)
  end.

(** ** The client object *)

(** A promise returned by [call] or [notify], named by its rank of creation;
    it stands for its pair of callbacks [resolve] and [reject]. *)
Definition promise : Type := nat.

(** A function attached to the client with [on(name, listener)]. *)
Definition listener : Type := nat.

(** What [this.queue] holds under a key: the array [[resolve, reject]] of a
    pending call, or [null] once the call has been answered. *)
Inductive entry : Type :=
| Callbacks (p : promise)
| Tombstone.

(** The closures given to [socket.send] as its second argument: the one of
    [call] keeps the id and the callbacks of the promise, the one of [notify]
    the callbacks only. *)
Inductive send_callback : Type :=
| CallSent (id : Z) (p : promise)
| NotifySent (p : promise).

(** The calls the client makes on its collaborators. *)
Inductive effect : Type :=
| new_WebSocket (address : string) (options : value)
| socket_send (data : string) (cb : send_callback)
| socket_close (code data : value)
| resolve (p : promise) (result : value)
| reject (p : promise) (error : value)
| listener_call (l : listener) (args : list value)
| setTimeout (address : string) (options : value) (delay : Z).

Inductive completion : Type :=
| Returned
| Threw (e : value)
| Hangs.

(** The fields of [this]. [sockets] counts the WebSockets created so far:
    [this.socket] is the last one and is [undefined] while the count is 0.
    [events] is the registry of the EventEmitter the client extends. *)
Record Client : Type := {
  queue : gmap string entry;
  rpc_id : Z;
  autoconnect : bool;
  ready : bool;
  reconnect : bool;
  reconnect_interval : Z;
  max_reconnects : Z;
  current_reconnects : Z;
  sockets : nat;
  events : gmap string (list listener);
}.

Record outcome : Type := {
  after : Client;
  effects : list effect;
  completed : completion;
}.

Definition returned (c : Client) (es : list effect) : outcome :=
  {| after := c; effects := es; completed := Returned |}.

Definition threw (c : Client) (es : list effect) (e : value) : outcome :=
  {| after := c; effects := es; completed := Threw e |}.

Definition set_queue (c : Client) (q : gmap string entry) : Client :=
  {| queue := q; rpc_id := rpc_id c; autoconnect := autoconnect c;
     ready := ready c; reconnect := reconnect c;
     reconnect_interval := reconnect_interval c;
     max_reconnects := max_reconnects c;
     current_reconnects := current_reconnects c;
     sockets := sockets c; events := events c |}.

Definition set_rpc_id (c : Client) (n : Z) : Client :=
  {| queue := queue c; rpc_id := n; autoconnect := autoconnect c;
     ready := ready c; reconnect := reconnect c;
     reconnect_interval := reconnect_interval c;
     max_reconnects := max_reconnects c;
     current_reconnects := current_reconnects c;
     sockets := sockets c; events := events c |}.

Definition set_ready (c : Client) (b : bool) : Client :=
  {| queue := queue c; rpc_id := rpc_id c; autoconnect := autoconnect c;
     ready := b; reconnect := reconnect c;
     reconnect_interval := reconnect_interval c;
     max_reconnects := max_reconnects c;
     current_reconnects := current_reconnects c;
     sockets := sockets c; events := events c |}.

Definition set_current_reconnects (c : Client) (n : Z) : Client :=
  {| queue := queue c; rpc_id := rpc_id c; autoconnect := autoconnect c;
     ready := ready c; reconnect := reconnect c;
     reconnect_interval := reconnect_interval c;
     max_reconnects := max_reconnects c;
     current_reconnects := n;
     sockets := sockets c; events := events c |}.

Definition set_sockets (c : Client) (n : nat) : Client :=
  {| queue := queue c; rpc_id := rpc_id c; autoconnect := autoconnect c;
     ready := ready c; reconnect := reconnect c;
     reconnect_interval := reconnect_interval c;
     max_reconnects := max_reconnects c;
     current_reconnects := current_reconnects c;
     sockets := n; events := events c |}.

Definition set_events (c : Client) (registry : gmap string (list listener))
    : Client :=
  {| queue := queue c; rpc_id := rpc_id c; autoconnect := autoconnect c;
     ready := ready c; reconnect := reconnect c;
     reconnect_interval := reconnect_interval c;
     max_reconnects := max_reconnects c;
     current_reconnects := current_reconnects c;
     sockets := sockets c; events := registry |}.

(** *** The EventEmitter *)

(** [this.listeners(name)] *)
Definition listeners (c : Client) (name : value) : list listener :=
  default [] (events c !! to_string name).

(** [this.emit(name, ...args)] with at least one listener attached, or for a
    name other than ["error"]: every listener is called, in the order of
    attachment, with the arguments. *)
Definition emit (c : Client) (name : value) (args : list value) : list effect :=
  map (fun l => listener_call l args) (listeners c name).

(** *** The queue *)

(** The names every object inherits from [Object.prototype]. *)
Definition Object_prototype : list string :=
  [ "constructor"; "__defineGetter__"; "__defineSetter__"; "hasOwnProperty";
    "__lookupGetter__"; "__lookupSetter__"; "isPrototypeOf";
    "propertyIsEnumerable"; "toString"; "valueOf"; "__proto__";
    "toLocaleString" ].

(** What [this.queue[key]] evaluates to. *)
Inductive slot : Type :=
| Pending (p : promise)
| Null
| Inherited
| Undefined.

Definition queue_get (q : gmap string entry) (key : string) : slot :=
  match q !! key with
  | Some (Callbacks p) => Pending p
  | Some Tombstone => Null
  | None => if bool_decide (key ∈ Object_prototype) then Inherited else Undefined
  end.

(** ** The methods and handlers of [Client] *)

Section Methods.
Context {host : Host}.

(** [constructor(address, options)], the options destructured with their
    defaults ([autoconnect = true], [reconnect = true],
    [reconnect_interval = 1000], [max_reconnects = 5]); [_connect] follows. *)
Definition fresh (autoconnect reconnect : bool)
    (reconnect_interval max_reconnects : Z)
    (events : gmap string (list listener)) : Client :=
  {| queue := ∅; rpc_id := 0; autoconnect := autoconnect; ready := false;
     reconnect := reconnect; reconnect_interval := reconnect_interval;
     max_reconnects := max_reconnects; current_reconnects := 0;
     sockets := 0%nat; events := events |}.

(** [_connect(address, options)]: [this.socket = new WebSocket(...)], then
    the four handlers below are attached to it. *)
Definition _connect (c : Client) (address : string) (options : value) : outcome :=
  returned (set_sockets c (S (sockets c))) [new_WebSocket address options].

Definition constructor (address : string) (options : value)
    (autoconnect reconnect : bool) (reconnect_interval max_reconnects : Z)
    : outcome :=
  let this := fresh autoconnect reconnect reconnect_interval max_reconnects ∅ in
  if autoconnect then _connect this address options else returned this [].

(** The message [call] sends. *)
Definition request (method : string) (params : value) (id : Z) : value :=
  VObj [ ("jsonrpc", VStr "2.0"); ("method", VStr method);
         ("params", js_or params VNull); ("id", VNum id) ].

(** The message [notify] sends. *)
Definition notification (method : string) (params : value) : value :=
  VObj [ ("jsonrpc", VStr "2.0"); ("method", VStr method);
         ("params", js_or params VNull) ].

(** [call(method, params)], once [assertArgs] has accepted the arguments;
    [p] is the promise it returns. A throw inside the executor of a promise
    rejects the promise. *)
Definition call (c : Client) (method : string) (params : value) (p : promise)
    : outcome :=
  if negb (ready c) then returned c [reject p (Error "socket not ready")]
  else
    let rpc_id := rpc_id c + 1 in
    let c := set_rpc_id c rpc_id in
    let message := request method params rpc_id in
    if (sockets c =? 0)%nat then returned c [reject p TypeError]
    else returned c [socket_send (JSON_stringify message) (CallSent rpc_id p)].

(** The callback of [socket.send] in [call]. *)
Definition call_sent (c : Client) (rpc_id : Z) (p : promise) (error : value)
    : outcome :=
  if truthy error then returned c [reject p error]
  else
    returned (set_queue c (<[to_string (VNum rpc_id) := Callbacks p]> (queue c))) [].

(** [notify(method, params)] *)
Definition notify (c : Client) (method : string) (params : value) (p : promise)
    : outcome :=
  if negb (ready c) then returned c [reject p (Error "socket not ready")]
  else
    let message := notification method params in
    if (sockets c =? 0)%nat then returned c [reject p TypeError]
    else returned c [socket_send (JSON_stringify message) (NotifySent p)].

(** The callback of [socket.send] in [notify]. *)
Definition notify_sent (c : Client) (p : promise) (error : value) : outcome :=
  if truthy error then returned c [reject p error]
  else returned c [resolve p VUndef].

(** [close(code, data)] *)
Definition close (c : Client) (code data : value) : outcome :=
  if (sockets c =? 0)%nat then threw c [] TypeError
  else returned c [socket_close (js_or code (VNum 1000)) data].

(** The handler of ["open"]. *)
Definition on_open (c : Client) : outcome :=
  let c := set_ready c true in
  let es := emit c (VStr "open") [] in
  returned (set_current_reconnects c 0) es.

(** The handler of ["message"] after [JSON.parse] has returned [message].
    Three conversions in it can throw a TypeError on a value that has no
    primitive value ([keyed] is false): the key of
    [this.listeners(message.notification)], the bound of
    [i < message.params.length] and the key of [this.queue[message.id]]. *)
Definition dispatch (c : Client) (message : value) : outcome :=
  match get message "notification" with
  | None => threw c [] TypeError
  | Some name =>
      if truthy name && negb (keyed name) then threw c [] TypeError
      else if truthy name && negb (length (listeners c name) =? 0)%nat then
        match get message "params" ≫= (fun params => get params "length") with
        | None => threw c [] TypeError
        | Some len =>
            let params := default VUndef (get message "params") in
            if negb (truthy len) then returned c (emit c name [])
            else if negb (keyed len) then threw c [] TypeError
            else
              match rounds len with
              | None => {| after := c; effects := []; completed := Hangs |}
              | Some n =>
                  returned c (emit c name (map (index params) (seq 0 n)))
              end
        end
      else
        let id := default VUndef (get message "id") in
        if negb (keyed id) then threw c [] TypeError else
        match queue_get (queue c) (to_string id) with
        | Undefined | Null => returned c []
        | Inherited => threw c [] TypeError
        | Pending p =>
            let error := default VUndef (get message "error") in
            let settle :=
              if truthy error then reject p error
              else resolve p (default VUndef (get message "result")) in
            returned (set_queue c (<[to_string id := Tombstone]> (queue c)))
                     [settle]
        end
  end.

(** The handler of ["message"]. *)
Definition on_message (c : Client) (data : string) : outcome :=
  match JSON_parse data with
  | None => returned c []
  | Some message => dispatch c message
  end.

(** The handler of ["error"]: [emit("error", error)] throws the error (the
    socket reports Error objects) when no listener is attached to
    ["error"]. *)
Definition on_error (c : Client) (error : value) : outcome :=
  match listeners c (VStr "error") with
  | [] => threw c [] error
  | _ => returned c (emit c (VStr "error") [error])
  end.

(** The handler of ["close"]; [address] and [options] are the arguments of
    the [_connect] that attached it. *)
Definition on_close (c : Client) (address : string) (options : value)
    (code : Z) (message : value) : outcome :=
  let c := set_ready c false in
  let es := emit c (VStr "close") [VNum code; message] in
  if code =? 1000 then returned c es
  else
    let c := set_current_reconnects c (current_reconnects c + 1) in
    if reconnect c && (current_reconnects c <? max_reconnects c)
       || (max_reconnects c =? 0)
    then returned c (es ++ [setTimeout address options (reconnect_interval c)])
    else returned c es.

End Methods.

(** ** The event loop

    The client runs inside one thread that delivers, one at a time, the calls
    of the application, the events of the socket, the callbacks of
    [socket.send] and the timer. A [world] is the client together with what
    its collaborators hold for it. The socket calls a callback it was given
    once at most, and a timer fires once. *)

Record world : Type := {
  client : Client;
  (** the arguments of [_connect], kept by its closures *)
  address : string;
  options : value;
  (** the callbacks given to [socket.send] that it has not called yet *)
  inflight : list send_callback;
  (** the timers set by [setTimeout] that have not fired yet *)
  timers : nat;
  (** the promises created so far *)
  promises : nat;
}.

Inductive input : Type :=
| Call (method : string) (params : value)
| Notify (method : string) (params : value)
| Close (code data : value)
| Open
| Message (data : string)
| Failure (error : value)
| Closed (code : Z) (message : value)
| Sent (i : nat) (error : value)
| Timeout
| Listen (registry : gmap string (list listener)).

(** The callbacks that a list of effects hands to the socket. *)
Definition handed (es : list effect) : list send_callback :=
  omap (fun e => match e with socket_send _ cb => Some cb | _ => None end) es.

(** The delays of the timers that a list of effects sets, and their number. *)
Definition timeouts (es : list effect) : list Z :=
  omap (fun e => match e with setTimeout _ _ delay => Some delay | _ => None end) es.

Definition armed (es : list effect) : nat := length (timeouts es).

(** The ids of the calls among send callbacks. *)
Definition call_ids (cbs : list send_callback) : list Z :=
  omap (fun cb => match cb with CallSent id _ => Some id | _ => None end) cbs.

(** The ids that a list of effects allocates: those of the requests sent. *)
Definition allocated (es : list effect) : list Z := call_ids (handed es).

Section Loop.
Context {host : Host}.

(** The world after the client has run: the socket keeps the callbacks it
    was handed and the timers set are pending. *)
Definition settle (w : world) (o : outcome) (inflight : list send_callback)
    (timers promises : nat) : world * list effect :=
  ({| client := after o; address := address w; options := options w;
      inflight := inflight ++ handed (effects o);
      timers := (timers + armed (effects o))%nat;
      promises := promises |},
   effects o).

Definition idle (w : world) : world * list effect := (w, []).

(** One turn of the loop. The socket has handlers once [_connect] has run;
    [Sent i error] is the socket calling the [i]-th callback it holds, which
    it then drops; [Timeout] is the oldest timer firing; [Listen registry] is
    the application attaching or removing listeners with the methods of the
    EventEmitter, which leave the registry as given and run no code of the
    client. *)
Definition step (w : world) (i : input) : world * list effect :=
  let c := client w in
  let attached := negb (sockets c =? 0)%nat in
  match i with
  | Call method params =>
      settle w (call c method params (promises w))
             (inflight w) (timers w) (S (promises w))
  | Notify method params =>
      settle w (notify c method params (promises w))
             (inflight w) (timers w) (S (promises w))
  | Close code data =>
      settle w (close c code data) (inflight w) (timers w) (promises w)
  | Open =>
      if attached
      then settle w (on_open c) (inflight w) (timers w) (promises w)
      else idle w
  | Message data =>
      if attached
      then settle w (on_message c data) (inflight w) (timers w) (promises w)
      else idle w
  | Failure error =>
      if attached
      then settle w (on_error c error) (inflight w) (timers w) (promises w)
      else idle w
  | Closed code message =>
      if attached
      then settle w (on_close c (address w) (options w) code message)
                  (inflight w) (timers w) (promises w)
      else idle w
  | Sent i error =>
      match inflight w !! i with
      | None => idle w
      | Some (CallSent id p) =>
          settle w (call_sent c id p error)
                 (delete i (inflight w)) (timers w) (promises w)
      | Some (NotifySent p) =>
          settle w (notify_sent c p error)
                 (delete i (inflight w)) (timers w) (promises w)
      end
  | Timeout =>
      match timers w with
      | O => idle w
      | S n =>
          settle w (_connect c (address w) (options w))
                 (inflight w) n (promises w)
      end
  | Listen registry =>
      settle w (returned (set_events c registry) [])
             (inflight w) (timers w) (promises w)
  end.

(** The loop over a sequence of inputs: the world it ends in and everything
    the client did on the way. *)
Fixpoint run (w : world) (ins : list input) : world * list effect :=
  match ins with
  | [] => (w, [])
  | i :: rest =>
      let '(w1, es1) := step w i in
      let '(w2, es2) := run w1 rest in
      (w2, es1 ++ es2)
  end.

(** [new Client(address, options)] and the world it starts in. *)
Definition boot (address : string) (options : value)
    (autoconnect reconnect : bool) (reconnect_interval max_reconnects : Z)
    : world * list effect :=
  let o := constructor address options autoconnect reconnect
                       reconnect_interval max_reconnects in
  ({| client := after o; address := address; options := options;
      inflight := []; timers := 0%nat; promises := 0%nat |},
   effects o).

End Loop.

(** ** A host and a client for the examples *)

(** A host for the examples: its [JSON.parse] knows the texts of a table and
    rejects every other text, its [JSON.stringify] is a stand-in (no property
    depends on the text that is sent), and it reads no string as a positive
    number. *)
Definition table_host (table : list (string * value)) : Host :=
  {| JSON_parse := own table;
     JSON_stringify := to_string;
     string_bound := fun _ => Some 0%nat |}.

(** [{"notification": "tick", "params": [1, 2]}] *)
Definition tick_1_2 : value :=
  VObj [("notification", VStr "tick"); ("params", VArr [VNum 1; VNum 2])].

(** [{"notification": "tick", "params": 5}] *)
Definition tick_5 : value :=
  VObj [("notification", VStr "tick"); ("params", VNum 5)].

(** [{"notification": "tick", "params": {"a": 1}}]: parameters by name *)
Definition tick_by_name : value :=
  VObj [("notification", VStr "tick"); ("params", VObj [("a", VNum 1)])].

(** [{"notification": "tick"}] *)
Definition tick_bare : value := VObj [("notification", VStr "tick")].

(** [{"id": id, "result": result}] *)
Definition response (id : Z) (result : value) : value :=
  VObj [("id", VNum id); ("result", result)].

(** [{"id": id, "error": error}] *)
Definition error_response (id : Z) (error : value) : value :=
  VObj [("id", VNum id); ("error", error)].

Definition node : Host :=
  table_host [ ("tick(1,2)", tick_1_2); ("tick", tick_bare);
               ("result 1", response 1 (VStr "one"));
               ("result 2", response 2 (VStr "two"));
               ("result 3", response 3 (VStr "three")) ].

(** A client with the default options, connected and open, on which listener
    7 is attached to ["tick"]. *)
Definition listening : Client :=
  {| queue := ∅; rpc_id := 0; autoconnect := true; ready := true;
     reconnect := true; reconnect_interval := 1000; max_reconnects := 5;
     current_reconnects := 0; sockets := 1%nat;
     events := {[ "tick" := [7%nat] ]} |}.

(** A client with a call pending under id 1, for promise 0. *)
Definition awaiting : Client := set_queue listening {[ "1" := Callbacks 0%nat ]}.

(** [{"notification": "tock", "id": 1, "result": "one"}] *)
Definition tock_1 : value :=
  VObj [("notification", VStr "tock"); ("id", VNum 1); ("result", VStr "one")].

(** [{"notification": "tock", "id": 1, "error": null}] *)
Definition tock_null_error : value :=
  VObj [("notification", VStr "tock"); ("id", VNum 1); ("error", VNull)].

(** [{"id": 1, "error": 0}] *)
Definition error_0 : value := VObj [("id", VNum 1); ("error", VNum 0)].

(** [{"id": "constructor", "result": 1}] *)
Definition constructor_id : value :=
  VObj [("id", VStr "constructor"); ("result", VNum 1)].

(** A client like [listening], whose listener 7 is attached to the empty
    name instead. *)
Definition unnamed_listening : Client :=
  {| queue := ∅; rpc_id := 0; autoconnect := true; ready := true;
     reconnect := true; reconnect_interval := 1000; max_reconnects := 5;
     current_reconnects := 0; sockets := 1%nat;
     events := {[ "" := [7%nat] ]} |}.

(** [{"notification": "", "params": [1, 2]}] *)
Definition unnamed_1_2 : value :=
  VObj [("notification", VStr ""); ("params", VArr [VNum 1; VNum 2])].

(** [{"notification": ""}] *)
Definition unnamed_bare : value := VObj [("notification", VStr "")].

(** ** Vocabulary of the properties *)

(** A string that starts like a decimal numeral: with a digit or a minus. *)
Definition numeral (s : string) : bool :=
  match s with
  | EmptyString => false
  | String c _ =>
      let n := Ascii.nat_of_ascii c in
      ((48 <=? n)%nat && (n <=? 57)%nat) || (n =? 45)%nat
  end.

(** An input of a run in which the connection only fails: the socket closes
    with a code other than 1000, or the timer of a reconnection fires. *)
Definition failing (i : input) : bool :=
  match i with
  | Closed code _ => negb (code =? 1000)
  | Timeout => true
  | _ => false
  end.

(** The number of closures of the socket among inputs. *)
Definition closures (ins : list input) : nat :=
  length (omap (fun i => match i with Closed code _ => Some code | _ => None end) ins).

(** The queue of a client is keyed by the ids it has allocated: every key is
    the decimal numeral of an id between 1 and [rpc_id]. *)
Definition keyed_by_ids (c : Client) : Prop :=
  0 <= rpc_id c ∧
  forall k : string, is_Some (queue c !! k) ->
    exists id : Z, k = pretty id ∧ 0 < id <= rpc_id c.

(** An input other than a closure of the socket. *)
Definition not_closure (i : input) : bool :=
  match i with Closed _ _ => false | _ => true end.

(** The sockets that a list of effects creates. *)
Definition opened (es : list effect) : list string :=
  omap (fun e => match e with new_WebSocket a _ => Some a | _ => None end) es.

(** The promises whose callbacks the send callbacks keep. *)
Definition promises_of (cbs : list send_callback) : list promise :=
  map (fun cb => match cb with CallSent _ p => p | NotifySent p => p end) cbs.

(** The registry of requests is in order when, for the queue [q], the counter
    [n], the send callbacks [cbs] that the socket still holds and the number
    [ps] of promises created:
    - the keys of the queue are the numerals of ids between 1 and [n];
    - the ids of the requests in flight are between 1 and [n], pairwise
      distinct, and not yet in the queue;
    - a promise is kept in one place at most, the queue or a send callback,
      and only if it has been created. *)
Definition registry (q : gmap string entry) (n : Z) (cbs : list send_callback)
    (ps : nat) : Prop :=
  0 <= n
  ∧ (forall k : string, is_Some (q !! k) ->
       exists id : Z, k = pretty id ∧ 0 < id <= n)
  ∧ (forall id : Z, id ∈ call_ids cbs -> 0 < id <= n ∧ q !! pretty id = None)
  ∧ NoDup (call_ids cbs)
  ∧ NoDup (promises_of cbs)
  ∧ (forall p : promise, p ∈ promises_of cbs -> (p < ps)%nat)
  ∧ (forall (k : string) (p : promise), q !! k = Some (Callbacks p) ->
       (p < ps)%nat ∧ p ∉ promises_of cbs)
  ∧ (forall (k1 k2 : string) (p : promise),
       q !! k1 = Some (Callbacks p) -> q !! k2 = Some (Callbacks p) -> k1 = k2).

(** The worlds the loop can be in: the registry is in order, and a client
    that is ready has a socket. *)
Definition consistent (w : world) : Prop :=
  registry (queue (client w)) (rpc_id (client w)) (inflight w) (promises w)
  ∧ (ready (client w) = true -> sockets (client w) ≠ 0%nat).

(** An id that was allocated and is neither in flight nor in the queue. *)
Definition retired (w : world) (id : Z) : Prop :=
  id <= rpc_id (client w)
  ∧ (id ∉ call_ids (inflight w))
  ∧ queue (client w) !! pretty id = None.

(** The promises that a list of effects settles, one occurrence for each
    call of a [resolve] or a [reject]. *)
Definition settled (es : list effect) : list promise :=
  omap (fun e => match e with
                 | resolve p _ | reject p _ => Some p
                 | _ => None
                 end) es.

(** A promise that can still be settled: one kept by a send callback or by
    the queue, or one not created yet. *)
Definition live (w : world) (p : promise) : Prop :=
  p ∈ promises_of (inflight w)
  ∨ (exists k : string, queue (client w) !! k = Some (Callbacks p))
  ∨ (promises w <= p)%nat.

(** What a response does to the call it answers, whose promise is [p]. *)
Definition settlement (message : value) (p : promise) : effect :=
  let error := default VUndef (get message "error") in
  if truthy error then reject p error
  else resolve p (default VUndef (get message "result")).

(** A response on its way: the text on the socket, the message it decodes
    to, the id it carries and the promise of the call it answers. *)
Record delivery : Type := {
  payload : string;
  decoded : value;
  answers : Z;
  awaited : promise;
}.

(** A message that the handler does not forward as an event, and so looks up
    in the queue: its [notification] is missing or falsy, or has no listener
    attached. *)
Definition unheard (c : Client) (message : value) : Prop :=
  exists name : value,
    get message "notification" = Some name
    ∧ truthy name && negb (length (listeners c name) =? 0)%nat = false.

(** A message with the [notification] of the protocol: none, or a string. *)
Definition named (message : value) : Prop :=
  get message "notification" = Some VUndef
  ∨ exists event : string, get message "notification" = Some (VStr event).

(** *** The connection state of the specification

    The data model of the specification gives the connection four states,
    [Disconnected], [Connecting], [Open] (here [Opened], [Open] being the
    input) and [Closing], with the transitions: [Disconnected] to
    [Connecting] on a connect attempt, [Connecting] to [Open] on the
    transport's [open], [Open] or [Connecting] to [Disconnected] on the
    transport's [close], and [Open] to [Closing] to [Disconnected] on a
    local [close()]. The client keeps no such state: it has the flag
    [ready]. *)
Inductive ConnectionState : Type :=
| Disconnected
| Connecting
| Opened
| Closing.

(** The transition of the specification on an input of the loop; the
    connect attempt of a reconnection is made when its timer fires. *)
Definition transition (s : ConnectionState) (i : input) : ConnectionState :=
  match i, s with
  | Open, Connecting => Opened
  | Closed _ _, _ => Disconnected
  | Close _ _, Opened => Closing
  | Timeout, Disconnected => Connecting
  | _, _ => s
  end.

(** The state of the specification after the inputs [ins], for a client
    whose constructor has made the first connect attempt. *)
Definition state_after (ins : list input) : ConnectionState :=
  fold_left transition ins Connecting.

(** *** Worlds for the examples *)

(** The world after [new Client()] with the default options. *)
Definition started : world :=
  (boot "ws://localhost:8080/rpc/1.0" VUndef true true 1000 5).1.

(** The world of a client made with [max_reconnects: 2], once its
    connection is open. *)
Definition capped : world :=
  (run (host := node)
       (boot "ws://localhost:8080/rpc/1.0" VUndef true true 1000 2).1
       [Open]).1.

(** The connection is open and one call has been sent. *)
Definition calling : world :=
  (run (host := node) started [Open; Call "sum" (VArr [VNum 1; VNum 2])]).1.

(** Three calls sent and confirmed by the socket: ids 1, 2 and 3 are pending
    for the promises 0, 1 and 2. *)
Definition three_pending : world :=
  (run (host := node) started
       [ Open; Call "a" VUndef; Call "b" VUndef; Call "c" VUndef;
         Sent 0 VUndef; Sent 0 VUndef; Sent 0 VUndef ]).1.

(** Their responses, arriving in the order 3, 1, 2. *)
Definition out_of_order : list delivery :=
  [ {| payload := "result 3"; decoded := response 3 (VStr "three");
       answers := 3; awaited := 2%nat |};
    {| payload := "result 1"; decoded := response 1 (VStr "one");
       answers := 1; awaited := 0%nat |};
    {| payload := "result 2"; decoded := response 2 (VStr "two");
       answers := 2; awaited := 1%nat |} ].

(** One round of a connection that reopens and fails again: the socket
    closes abnormally, the timer fires, the new socket opens. *)
Definition reopening : list input := [Closed 1006 VUndef; Timeout; Open].

(** The connection opens and the application closes it: the socket has been
    asked to close and has not reported the closure yet. *)
Definition closing : list input := [Open; Close VUndef VUndef].

(** ** Subscriptions

    [subscribe] and [unsubscribe] are async functions: each returns a promise
    of its own, calls [call] and is resumed when the promise of the call is
    settled. *)

(** What [v[k]] finds, for any key: a TypeError on [undefined] and [null], an
    own property (or [undefined] when there is none at all), or a member
    inherited from a prototype of the engine, known by the text it prints
    as. *)
Inductive found : Type :=
| Throws
| Own (x : value)
| Builtin (text : string).

(** The prototypes of the engine ([Object.prototype], [Array.prototype],
    ...): [inherited v k] is the text of the member [k] that [v] inherits,
    when it inherits one. *)
Class Prototypes := {
  inherited : value -> string -> option string;
}.

(** The index that a key denotes in an array or string of length [n]. *)
Definition index_of (k : string) (n : nat) : option nat :=
  snd <$> list_find (fun i => pretty (Z.of_nat i) = k) (seq 0 n).

(** [v[k]] *)
Definition member {engine : Prototypes} (v : value) (k : string) : found :=
  let proto := match inherited v k with
               | Some text => Builtin text
               | None => Own VUndef
               end in
  match v with
  | VUndef | VNull => Throws
  | VObj members =>
      match own members k with Some x => Own x | None => proto end
  | VArr items =>
      if String.eqb k "length" then Own (VNum (Z.of_nat (length items)))
      else match index_of k (length items) with
           | Some i => Own (default VUndef (items !! i))
           | None => proto
           end
  | VStr s =>
      if String.eqb k "length" then Own (VNum (Z.of_nat (String.length s)))
      else match index_of k (String.length s) with
           | Some i => Own (default VUndef (chars s !! i))
           | None => proto
           end
  | VErr m => if String.eqb k "message" then Own (VStr m) else proto
  | VBool _ | VNum _ => proto
  end.

(** [new Error(prefix + v)], or the TypeError that the concatenation
    throws. *)
Definition failure (prefix : string) (v : value) : value :=
  match text_of v with
  | Some text => Error (prefix +:+ text)
  | None => TypeError
  end.

(** [x !== "ok"] *)
Definition not_ok (x : value) : bool :=
  match x with
  | VStr s => negb (String.eqb s "ok")
  | _ => true
  end.

Section Subscriptions.
Context {host : Host} {engine : Prototypes}.

(** [subscribe(event)] up to its [await]: [this.call("rpc.on", [event])],
    whose promise is [p]. *)
Definition subscribe (c : Client) (event : string) (p : promise) : outcome :=
  call c "rpc.on" (VArr [VStr event]) p.

(** [unsubscribe(event)] up to its [await]. *)
Definition unsubscribe (c : Client) (event : string) (p : promise) : outcome :=
  call c "rpc.off" (VArr [VStr event]) p.

(** [subscribe] after its [await], when the call is resolved with [result];
    [q] is the promise that [subscribe] returned. A throw rejects it. *)
Definition subscribed (event : string) (q : promise) (result : value) : effect :=
  match member result event with
  | Throws => reject q TypeError
  | Own x =>
      if not_ok x
      then reject q (failure "Failed subscribing to an event with: " x)
      else resolve q VUndef
  | Builtin text =>
      reject q (Error ("Failed subscribing to an event with: " +:+ text))
  end.

(** [unsubscribe] after its [await]: the message of its error is built from
    [result], not from [result[event]]. *)
Definition unsubscribed (event : string) (q : promise) (result : value) : effect :=
  match member result event with
  | Throws => reject q TypeError
  | Own x =>
      if not_ok x
      then reject q (failure "Failed unsubscribing from an event with: " result)
      else resolve q VUndef
  | Builtin _ =>
      reject q (failure "Failed unsubscribing from an event with: " result)
  end.

End Subscriptions.

(** An async function suspended at its [await]: which of the two it is, its
    argument and the promise it returned. *)
Inductive suspended : Type :=
| Subscribing (event : string) (q : promise)
| Unsubscribing (event : string) (q : promise).

(** The promise that an effect settles, with the outcome: the value it is
    resolved with or the error it is rejected with. *)
Definition settles (e : effect) : option (promise * (value + value)) :=
  match e with
  | resolve p v => Some (p, inl v)
  | reject p err => Some (p, inr err)
  | _ => None
  end.

(** The loop with the async functions of the application: the world, and the
    functions suspended on the promise of a call. *)
Record session : Type := {
  loop : world;
  waits : gmap promise suspended;
}.

Inductive action : Type :=
| Subscribe (event : string)
| Unsubscribe (event : string)
| Do (i : input).

Section Sessions.
Context {host : Host} {engine : Prototypes}.

(** A suspended function resumed with the outcome of the promise it awaits:
    a rejection of the call rejects its promise with the same error. *)
Definition resumed (f : suspended) (outcome : value + value) : effect :=
  match f, outcome with
  | Subscribing event q, inl result => subscribed event q result
  | Unsubscribing event q, inl result => unsubscribed event q result
  | Subscribing _ q, inr error | Unsubscribing _ q, inr error => reject q error
  end.

(** The functions that the effects of a turn resume, in order: each is
    resumed once and waits no more. *)
Fixpoint resume (waits : gmap promise suspended) (es : list effect)
    : gmap promise suspended * list effect :=
  match es with
  | [] => (waits, [])
  | e :: rest =>
      match settles e with
      | Some (p, outcome) =>
          match waits !! p with
          | Some f =>
              let '(waits', es') := resume (delete p waits) rest in
              (waits', resumed f outcome :: es')
          | None => resume waits rest
          end
      | None => resume waits rest
      end
  end.

(** The session after a turn of the world: the suspended functions whose
    call was settled in the turn run after it. *)
Definition after_turn (waits : gmap promise suspended)
    (turn : world * list effect) : session * list effect :=
  let '(waits', es') := resume waits turn.2 in
  ({| loop := turn.1; waits := waits' |}, turn.2 ++ es').

(** One action. An async function first creates the promise it returns, [q],
    and then runs to its [await], where [call] creates its own, [p]. *)
Definition act (s : session) (a : action) : session * list effect :=
  let w := loop s in
  let q := promises w in
  let p := S q in
  match a with
  | Subscribe event =>
      after_turn (<[p := Subscribing event q]> (waits s))
        (settle w (subscribe (client w) event p)
                (inflight w) (timers w) (S p))
  | Unsubscribe event =>
      after_turn (<[p := Unsubscribing event q]> (waits s))
        (settle w (unsubscribe (client w) event p)
                (inflight w) (timers w) (S p))
  | Do i => after_turn (waits s) (step w i)
  end.

Fixpoint perform (s : session) (acts : list action) : session * list effect :=
  match acts with
  | [] => (s, [])
  | a :: rest =>
      let '(s1, es1) := act s a in
      let '(s2, es2) := perform s1 rest in
      (s2, es1 ++ es2)
  end.

End Sessions.

(** The members of [Object.prototype] as V8 prints them, for the examples,
    which read objects only. *)
Definition v8_objects : Prototypes :=
  {| inherited := fun v k =>
       match v with
       | VObj _ =>
           if bool_decide (k ∈ Object_prototype)
           then Some (if String.eqb k "__proto__" then "[object Object]"
                      else if String.eqb k "constructor"
                      then "function Object() { [native code] }"
                      else "function " +:+ k +:+ "() { [native code] }")
           else None
       | _ => None
       end |}.

(** A session on a world, with no function suspended. *)
Definition fresh_session (w : world) : session := {| loop := w; waits := ∅ |}.

(** *** Vocabulary of the further properties *)

(** The rejection of a promise by [call] or [notify] on a client that is not
    ready. *)
Definition refusal (e : effect) : Prop :=
  exists p : promise, e = reject p (Error "socket not ready").

(** A world in which nothing can happen on a socket: the client has none and
    is not ready, no timer is pending and no send callback is held. *)
Definition dormant (w : world) : Prop :=
  sockets (client w) = 0%nat
  ∧ ready (client w) = false
  ∧ timers w = 0%nat
  ∧ inflight w = [].

(** An input other than the opening of the socket. *)
Definition not_open (i : input) : bool :=
  match i with Open => false | _ => true end.

(** An event of the connection: the socket closes, reports an error or
    opens, or the timer of a reconnection fires. *)
Definition connection_event (i : input) : bool :=
  match i with
  | Open | Failure _ | Closed _ _ | Timeout => true
  | _ => false
  end.

(** *** Worlds and messages for the further examples *)

(** The world of a client with the default options whose connection is
    open. *)
Definition connected : world := (run (host := node) started [Open]).1.

(** The connection is open and one notification has been sent. *)
Definition notifying : world :=
  (run (host := node) started [Open; Notify "log" (VArr [VStr "hello"])]).1.

(** The world of a client made with [reconnect: true, max_reconnects: 0]. *)
Definition unlimited : world :=
  (boot "ws://localhost:8080/rpc/1.0" VUndef true true 1000 0).1.

(** [{"notification": "tick", "params": "ab"}] *)
Definition tick_ab : value :=
  VObj [("notification", VStr "tick"); ("params", VStr "ab")].

(** [{"notification": "tick", "params": {"length": 2, "0": "a"}}] *)
Definition tick_array_like : value :=
  VObj [("notification", VStr "tick");
        ("params", VObj [("length", VNum 2); ("0", VStr "a")])].

(** [{"notification": "tick", "params": [], "id": 1, "result": "one"}] *)
Definition tick_with_id : value :=
  VObj [("notification", VStr "tick"); ("params", VArr []);
        ("id", VNum 1); ("result", VStr "one")].

(** A server that answers the request with id 1 in four ways. *)
Definition server : Host :=
  table_host [ ("ok", response 1 (VObj [("tick", VStr "ok")]));
               ("unknown", response 1 (VObj [("tick", VStr "unknown event")]));
               ("empty", VObj [("id", VNum 1)]);
               ("failed", error_response 1 (VStr "no such method")) ].

(** ** Properties *)

(** *** Property keys *)

Lemma numeral_digit (x : N) (s : string) :
  numeral (String (pretty_N_char x) s) = true.
Proof. unfold pretty_N_char. by repeat case_match. Qed.

Lemma numeral_pretty_N_go (x : N) : forall s : string,
  (0 < x)%N -> numeral (pretty_N_go x s) = true.
Proof.
  induction (N.lt_wf_0 x) as [x _ IH]; intros s Hx.
  rewrite pretty_N_go_step by done.
  destruct (decide (x `div` 10 = 0)%N) as [Hz|Hz].
  - rewrite Hz, pretty_N_go_0. apply numeral_digit.
  - apply IH; [apply N.div_lt; lia|by apply N.neq_0_lt_0].
Qed.

Lemma numeral_pretty (n : Z) : numeral (pretty n) = true.
Proof.
  destruct n as [|x|x]; [reflexivity| |].
  - unfold pretty, pretty_Z, pretty, pretty_positive, pretty, pretty_N.
    case_decide; [lia|]. by apply numeral_pretty_N_go.
  - reflexivity.
Qed.

(** A numeric key is not a name of [Object.prototype], so [queue[id]] for a
    number finds an own entry or nothing. *)
Lemma pretty_not_inherited (n : Z) : pretty n ∉ Object_prototype.
Proof.
  intros Hin. pose proof (numeral_pretty n) as Hn.
  unfold Object_prototype in Hin.
  repeat (apply elem_of_cons in Hin as [Heq|Hin];
          [rewrite Heq in Hn; discriminate Hn|]).
  by apply elem_of_nil in Hin.
Qed.

Lemma pretty_not_undefined (n : Z) : pretty n ≠ "undefined".
Proof.
  intros Heq. pose proof (numeral_pretty n) as Hn.
  rewrite Heq in Hn. discriminate Hn.
Qed.

Lemma queue_get_number (q : gmap string entry) (n : Z) :
  queue_get q (pretty n) =
    match q !! pretty n with
    | Some (Callbacks p) => Pending p
    | Some Tombstone => Null
    | None => Undefined
    end.
Proof.
  unfold queue_get. destruct (q !! pretty n) as [[p|]|]; try reflexivity.
  rewrite bool_decide_eq_false_2; [reflexivity|apply pretty_not_inherited].
Qed.

(** *** Effects of the handlers *)

Lemma timeouts_app (es1 es2 : list effect) :
  timeouts (es1 ++ es2) = timeouts es1 ++ timeouts es2.
Proof. apply omap_app. Qed.

Lemma handed_app (es1 es2 : list effect) :
  handed (es1 ++ es2) = handed es1 ++ handed es2.
Proof. apply omap_app. Qed.

Lemma timeouts_emit (c : Client) (name : value) (args : list value) :
  timeouts (emit c name args) = [].
Proof. unfold emit. induction (listeners c name); [reflexivity|done]. Qed.

Lemma handed_emit (c : Client) (name : value) (args : list value) :
  handed (emit c name args) = [].
Proof. unfold emit. induction (listeners c name); [reflexivity|done]. Qed.

Lemma settle_quiet (w : world) :
  ({| client := client w; address := address w; options := options w;
      inflight := inflight w ++ []; timers := (timers w + 0)%nat;
      promises := promises w |} : world) = w.
Proof. destruct w; simpl. by rewrite app_nil_r, Nat.add_0_r. Qed.

(** *** Reconnection *)

(** What the close handler does after an abnormal closure: it sets one timer
    exactly when [reconnect && (max_reconnects > current_reconnects) ||
    max_reconnects === 0] holds of the incremented counter. *)
Lemma on_close_abnormal (c : Client) (address : string) (options : value)
    (code : Z) (message : value) :
  code ≠ 1000 ->
  timeouts (effects (on_close c address options code message)) =
    if reconnect c && (current_reconnects c + 1 <? max_reconnects c)
       || (max_reconnects c =? 0)
    then [reconnect_interval c] else [].
Proof.
  intros Hcode. unfold on_close.
  rewrite (proj2 (Z.eqb_neq code 1000) Hcode). simpl.
  destruct (reconnect c && (current_reconnects c + 1 <? max_reconnects c)
            || (max_reconnects c =? 0)); simpl.
  - rewrite timeouts_app. by rewrite (timeouts_emit (set_ready c false)).
  - apply (timeouts_emit (set_ready c false)).
Qed.

(** Away from the configuration [reconnect = false, max_reconnects = 0] the
    handler sets a timer exactly when reconnection is enabled and the counter
    is under the cap or the cap is 0. *)
Lemma on_close_policy (c : Client) (address : string) (options : value)
    (code : Z) (message : value) :
  code ≠ 1000 ->
  ¬ (reconnect c = false ∧ max_reconnects c = 0) ->
  timeouts (effects (on_close c address options code message)) =
    if reconnect c && ((current_reconnects c + 1 <? max_reconnects c)
                       || (max_reconnects c =? 0))
    then [reconnect_interval c] else [].
Proof.
  intros Hcode Hcfg. rewrite on_close_abnormal by done.
  destruct (reconnect c) eqn:Hr; simpl; [reflexivity|].
  destruct (max_reconnects c =? 0) eqn:Hm; [|reflexivity].
  apply Z.eqb_eq in Hm. by destruct Hcfg.
Qed.

(** C1, at the configurations where the code departs from it: with
    reconnection disabled and [max_reconnects = 0], every abnormal closure
    sets the timer of a reconnection. *)
Theorem disabled_reconnect_still_retries (c : Client) (address : string)
    (options : value) (code : Z) (message : value) :
  reconnect c = false ->
  max_reconnects c = 0 ->
  code ≠ 1000 ->
  effects (on_close c address options code message) =
    emit (set_ready c false) (VStr "close") [VNum code; message]
    ++ [setTimeout address options (reconnect_interval c)]
  ∧ timeouts (effects (on_close c address options code message)) =
      [reconnect_interval c].
Proof.
  intros Hr Hm Hcode. split.
  - unfold on_close. rewrite (proj2 (Z.eqb_neq code 1000) Hcode). simpl.
    by rewrite Hr, Hm.
  - rewrite on_close_abnormal by done. by rewrite Hr, Hm.
Qed.

Lemma disabled_reconnect_still_retries_witness :
  reconnect (fresh true false 1000 0 ∅) = false
  ∧ max_reconnects (fresh true false 1000 0 ∅) = 0
  ∧ timeouts (effects (on_close (fresh true false 1000 0 ∅)
                                "ws://localhost:8080/rpc/1.0" VUndef 1006 VUndef))
    = [1000].
Proof.
  split; [reflexivity|]. split; [reflexivity|].
  apply (disabled_reconnect_still_retries (fresh true false 1000 0 ∅));
    [reflexivity|reflexivity|lia].
Defined.

(** *** Runs *)

Section Runs.
Context {host : Host}.

Lemma run_cons (w : world) (i : input) (rest : list input) :
  run w (i :: rest) =
    ((run (step w i).1 rest).1, (step w i).2 ++ (run (step w i).1 rest).2).
Proof.
  simpl. destruct (step w i) as [w1 es1]. simpl.
  by destruct (run w1 rest) as [w2 es2].
Qed.

Lemma run_app (w : world) (ins1 ins2 : list input) :
  run w (ins1 ++ ins2) =
    ((run (run w ins1).1 ins2).1, (run w ins1).2 ++ (run (run w ins1).1 ins2).2).
Proof.
  revert w. induction ins1 as [|i ins1 IH]; intros w.
  - simpl. by destruct (run w ins2).
  - rewrite <- app_comm_cons, !run_cons, IH. simpl. by rewrite app_assoc.
Qed.

Lemma armed_app (es1 es2 : list effect) :
  armed (es1 ++ es2) = (armed es1 + armed es2)%nat.
Proof. unfold armed. by rewrite timeouts_app, length_app. Qed.

(** The turn of an abnormal closure, on a client with a socket. *)
Lemma step_closed_abnormal (w : world) (code : Z) (message : value) :
  sockets (client w) ≠ 0%nat ->
  code ≠ 1000 ->
  let c := client w in
  client (step w (Closed code message)).1 =
    set_current_reconnects (set_ready c false) (current_reconnects c + 1)
  ∧ timers (step w (Closed code message)).1 =
      (timers w + armed (step w (Closed code message)).2)%nat
  ∧ armed (step w (Closed code message)).2 =
      if reconnect c && (current_reconnects c + 1 <? max_reconnects c)
         || (max_reconnects c =? 0)
      then 1%nat else 0%nat.
Proof.
  intros Hs Hcode c. unfold step. fold c.
  rewrite (proj2 (Nat.eqb_neq (sockets c) 0) Hs). simpl.
  split; [|split; [reflexivity|]].
  - unfold on_close. rewrite (proj2 (Z.eqb_neq code 1000) Hcode). simpl.
    by destruct (reconnect c && (current_reconnects c + 1 <? max_reconnects c)
                 || (max_reconnects c =? 0)).
  - unfold armed. rewrite on_close_abnormal by done.
    by destruct (reconnect c && (current_reconnects c + 1 <? max_reconnects c)
                 || (max_reconnects c =? 0)).
Qed.

(** The turn of the timer: a new socket, no new timer, the counters kept. *)
Lemma step_timeout (w : world) :
  let w' := (step w Timeout).1 in
  armed (step w Timeout).2 = 0%nat
  ∧ current_reconnects (client w') = current_reconnects (client w)
  ∧ reconnect (client w') = reconnect (client w)
  ∧ max_reconnects (client w') = max_reconnects (client w)
  ∧ (sockets (client w) ≠ 0%nat -> sockets (client w') ≠ 0%nat).
Proof. unfold step. destruct (timers w); simpl; auto 10. Qed.

(** The turn of an opening, on a client with a socket: the counter of
    reconnections is reset. *)
Lemma step_open (w : world) :
  sockets (client w) ≠ 0%nat ->
  let w' := (step w Open).1 in
  armed (step w Open).2 = 0%nat
  ∧ current_reconnects (client w') = 0
  ∧ reconnect (client w') = reconnect (client w)
  ∧ max_reconnects (client w') = max_reconnects (client w)
  ∧ sockets (client w') = sockets (client w).
Proof.
  intros Hs. unfold step. rewrite (proj2 (Nat.eqb_neq _ 0) Hs). simpl.
  split; [|done]. unfold armed.
  by rewrite (timeouts_emit (set_ready (client w) true)).
Qed.

(** With a cap other than 0 and reconnection enabled, a run of failures
    sets [max_reconnects - 1 - current_reconnects] timers and no more. *)
Lemma capped_retries (ins : list input) : forall w : world,
  sockets (client w) ≠ 0%nat ->
  reconnect (client w) = true ->
  max_reconnects (client w) ≠ 0 ->
  forallb failing ins = true ->
  armed (run w ins).2 =
    (closures ins `min`
     Z.to_nat (max_reconnects (client w) - 1 - current_reconnects (client w)))%nat.
Proof.
  induction ins as [|i ins IH]; intros w Hs Hr Hm Hall; [reflexivity|].
  simpl in Hall. apply andb_prop in Hall as [Hi Hall].
  rewrite run_cons. cbn [fst snd]. rewrite armed_app.
  destruct i as [| | | | | |code message| | |]; try discriminate Hi.
  - simpl in Hi. apply negb_true_iff, Z.eqb_neq in Hi.
    destruct (step_closed_abnormal w code message Hs Hi) as (Hc & _ & Ha).
    change (closures (Closed code message :: ins)) with (S (closures ins)).
    rewrite Ha, IH; rewrite ?Hc; try done.
    cbn [max_reconnects current_reconnects set_current_reconnects set_ready].
    rewrite Hr, andb_true_l, (proj2 (Z.eqb_neq _ 0) Hm), orb_false_r.
    destruct (current_reconnects (client w) + 1 <? max_reconnects (client w))
      eqn:Hlt; [apply Z.ltb_lt in Hlt|apply Z.ltb_ge in Hlt]; lia.
  - destruct (step_timeout w) as (Ha & Hc & Hr' & Hm' & Hs').
    change (closures (Timeout :: ins)) with (closures ins).
    rewrite Ha, IH; rewrite ?Hc, ?Hr', ?Hm'; auto.
Qed.

(** X19: with [max_reconnects = 0] every abnormal closure sets a timer,
    whatever [reconnect] is: the retries are unbounded. *)
Lemma unlimited_retries (ins : list input) : forall w : world,
  sockets (client w) ≠ 0%nat ->
  max_reconnects (client w) = 0 ->
  forallb failing ins = true ->
  armed (run w ins).2 = closures ins.
Proof.
  induction ins as [|i ins IH]; intros w Hs Hm Hall; [reflexivity|].
  simpl in Hall. apply andb_prop in Hall as [Hi Hall].
  rewrite run_cons. cbn [fst snd]. rewrite armed_app.
  destruct i as [| | | | | |code message| | |]; try discriminate Hi.
  - simpl in Hi. apply negb_true_iff, Z.eqb_neq in Hi.
    destruct (step_closed_abnormal w code message Hs Hi) as (Hc & _ & Ha).
    change (closures (Closed code message :: ins)) with (S (closures ins)).
    rewrite Ha, IH; rewrite ?Hc; try done.
    by rewrite Hm, orb_true_r.
  - destruct (step_timeout w) as (Ha & Hc & Hr' & Hm' & Hs').
    change (closures (Timeout :: ins)) with (closures ins).
    rewrite Ha, IH; rewrite ?Hm'; auto.
Qed.

(** When every reconnection opens before the connection fails again, the
    counter is reset each time and, for a cap above 1, every closure sets a
    timer: the retries do not stop. *)
Lemma reopening_retries (w : world) :
  sockets (client w) ≠ 0%nat ->
  reconnect (client w) = true ->
  1 < max_reconnects (client w) ->
  current_reconnects (client w) = 0 ->
  let w' := (run w reopening).1 in
  armed (run w reopening).2 = 1%nat
  ∧ sockets (client w') ≠ 0%nat
  ∧ reconnect (client w') = true
  ∧ max_reconnects (client w') = max_reconnects (client w)
  ∧ current_reconnects (client w') = 0.
Proof.
  intros Hs Hr Hm Hc. unfold reopening.
  rewrite !run_cons. cbn [run fst snd].
  rewrite !armed_app.
  assert (1006 ≠ 1000) as Hcode by lia.
  destruct (step_closed_abnormal w 1006 VUndef Hs Hcode) as (Hc1 & _ & Ha1).
  rewrite Hr, Hc, (proj2 (Z.ltb_lt (0 + 1) _)) in Ha1 by lia.
  set (w1 := (step w (Closed 1006 VUndef)).1) in *.
  destruct (step_timeout w1) as (Ha2 & Hc2 & Hr2 & Hm2 & Hs2).
  set (w2 := (step w1 Timeout).1) in *.
  assert (sockets (client w2) ≠ 0%nat) as Hs2' by (apply Hs2; by rewrite Hc1).
  destruct (step_open w2 Hs2') as (Ha3 & Hc3 & Hr3 & Hm3 & Hs3).
  rewrite Ha1, Ha2, Ha3, Hc3, Hr3, Hm3, Hs3, Hr2, Hm2, Hc1.
  by repeat split.
Qed.

(** X20: a connection that opens and fails again, [n] times over, is retried
    [n] times when the cap is above 1: the cap bounds the closures in a row,
    not the reconnections of a client. *)
Lemma reopened_retries (n : nat) : forall w : world,
  sockets (client w) ≠ 0%nat ->
  reconnect (client w) = true ->
  1 < max_reconnects (client w) ->
  current_reconnects (client w) = 0 ->
  armed (run w (concat (replicate n reopening))).2 = n.
Proof.
  induction n as [|n IH]; intros w Hs Hr Hm Hc; [reflexivity|].
  change (concat (replicate (S n) reopening))
    with (reopening ++ concat (replicate n reopening)).
  rewrite run_app. cbn [snd]. rewrite armed_app.
  destruct (reopening_retries w Hs Hr Hm Hc) as (-> & Hs' & Hr' & Hm' & Hc').
  rewrite IH; [done|done|done| |done]. by rewrite Hm'.
Qed.

End Runs.

Section Halt.
Context {host : Host}.

Lemma opened_app (es1 es2 : list effect) :
  opened (es1 ++ es2) = opened es1 ++ opened es2.
Proof. apply omap_app. Qed.

Lemma opened_emit (c : Client) (name : value) (args : list value) :
  opened (emit c name args) = [].
Proof. unfold emit. induction (listeners c name); [reflexivity|done]. Qed.

(** What the message handler can do: nothing, call the listeners of one
    event, or call one callback of one pending call. *)
Lemma dispatch_effects (c : Client) (message : value) :
  effects (dispatch c message) = []
  ∨ (exists name args, effects (dispatch c message) = emit c name args)
  ∨ (exists p v, effects (dispatch c message) = [resolve p v])
  ∨ (exists p e, effects (dispatch c message) = [reject p e]).
Proof.
  unfold dispatch.
  destruct (get message "notification") as [name|]; [|by left].
  destruct (truthy name && negb (keyed name)); [by left|].
  destruct (truthy name && negb (length (listeners c name) =? 0)%nat).
  - destruct (get message "params" ≫= _) as [len|]; [|by left].
    destruct (negb (truthy len)); [right; left; eauto|].
    destruct (negb (keyed len)); [by left|].
    destruct (rounds len); [right; left; eauto|by left].
  - destruct (negb (keyed _)); [by left|].
    destruct (queue_get _ _); try by left.
    destruct (truthy _); simpl; eauto 10.
Qed.

Lemma on_message_effects (c : Client) (data : string) :
  effects (on_message c data) = []
  ∨ (exists name args, effects (on_message c data) = emit c name args)
  ∨ (exists p v, effects (on_message c data) = [resolve p v])
  ∨ (exists p e, effects (on_message c data) = [reject p e]).
Proof.
  unfold on_message. destruct (JSON_parse data); [|by left].
  apply dispatch_effects.
Qed.

(** Only the close handler sets a timer, and only a timer creates a socket:
    a turn other than a closure, taken with no timer pending, does neither
    and leaves no timer pending. *)
Lemma step_quiet (w : world) (i : input) :
  timers w = 0%nat ->
  not_closure i = true ->
  timers (step w i).1 = 0%nat
  ∧ timeouts (step w i).2 = []
  ∧ opened (step w i).2 = [].
Proof.
  intros Ht Hi. unfold step, settle, idle, armed.
  destruct i as [m ps|m ps|code data| |data|error|code message|i error| |evs];
    try discriminate Hi; rewrite ?Ht; simpl.
  - unfold call. destruct (ready (client w)); simpl; [|done].
    destruct (sockets (client w) =? 0)%nat; done.
  - unfold notify. destruct (ready (client w)); simpl; [|done].
    destruct (sockets (client w) =? 0)%nat; done.
  - unfold close. destruct (sockets (client w) =? 0)%nat; done.
  - destruct (sockets (client w) =? 0)%nat; simpl; [done|].
    by rewrite (timeouts_emit (set_ready (client w) true)),
      (opened_emit (set_ready (client w) true)).
  - destruct (sockets (client w) =? 0)%nat; simpl; [done|].
    destruct (on_message_effects (client w) data)
      as [->|[(name & args & ->)|[(p & v & ->)|(p & e & ->)]]];
      rewrite ?timeouts_emit, ?opened_emit; done.
  - destruct (sockets (client w) =? 0)%nat; simpl; [done|].
    unfold on_error. destruct (listeners (client w) (VStr "error")) eqn:Hl;
      simpl; [done|].
    by rewrite timeouts_emit, opened_emit.
  - destruct (inflight w !! i) as [[id p|p]|]; simpl; [| |done].
    + unfold call_sent. by destruct (truthy error).
    + unfold notify_sent. by destruct (truthy error).
  - done.
  - done.
Qed.

Lemma run_quiet (ins : list input) : forall w : world,
  timers w = 0%nat ->
  forallb not_closure ins = true ->
  timeouts (run w ins).2 = [] ∧ opened (run w ins).2 = [].
Proof.
  induction ins as [|i ins IH]; intros w Ht Hall; [done|].
  simpl in Hall. apply andb_prop in Hall as [Hi Hall].
  destruct (step_quiet w i Ht Hi) as (Ht' & Hto & Hop).
  rewrite run_cons. cbn [fst snd].
  destruct (IH _ Ht' Hall) as [IH1 IH2].
  by rewrite timeouts_app, opened_app, Hto, Hop, IH1, IH2.
Qed.

(** Every socket after the first is opened by a timer, and every timer was
    set by the close handler: the sockets opened and the timers still pending
    add up to the timers that were pending and those set since. *)
Lemma step_timers (w : world) (i : input) :
  (length (opened (step w i).2) + timers (step w i).1
   = timers w + armed (step w i).2)%nat.
Proof.
  unfold step, settle, idle, armed.
  destruct i as [m ps|m ps|code data| |data|error|code message|i error| |evs];
    simpl.
  - unfold call. destruct (ready (client w)); simpl; [|lia].
    destruct (sockets (client w) =? 0)%nat; simpl; lia.
  - unfold notify. destruct (ready (client w)); simpl; [|lia].
    destruct (sockets (client w) =? 0)%nat; simpl; lia.
  - unfold close. destruct (sockets (client w) =? 0)%nat; simpl; lia.
  - destruct (sockets (client w) =? 0)%nat; simpl; [lia|].
    by rewrite (timeouts_emit (set_ready (client w) true)),
      (opened_emit (set_ready (client w) true)).
  - destruct (sockets (client w) =? 0)%nat; simpl; [lia|].
    destruct (on_message_effects (client w) data)
      as [->|[(name & args & ->)|[(p & v & ->)|(p & e & ->)]]];
      rewrite ?timeouts_emit, ?opened_emit; simpl; lia.
  - destruct (sockets (client w) =? 0)%nat; simpl; [lia|].
    unfold on_error. destruct (listeners (client w) (VStr "error")) eqn:Hl;
      simpl; [lia|].
    by rewrite timeouts_emit, opened_emit.
  - destruct (sockets (client w) =? 0)%nat; simpl; [lia|].
    unfold on_close. repeat case_match; simpl;
      rewrite ?opened_app, ?timeouts_app,
        ?(opened_emit (set_ready (client w) false)),
        ?(timeouts_emit (set_ready (client w) false)); simpl; lia.
  - destruct (inflight w !! i) as [[id p|p]|]; simpl; [| |lia].
    + unfold call_sent. destruct (truthy error); simpl; lia.
    + unfold notify_sent. destruct (truthy error); simpl; lia.
  - destruct (timers w) eqn:Ht; simpl; rewrite ?Ht; lia.
  - lia.
Qed.

Lemma run_timers (ins : list input) : forall w : world,
  (length (opened (run w ins).2) + timers (run w ins).1
   = timers w + armed (run w ins).2)%nat.
Proof.
  induction ins as [|i ins IH]; intros w; [unfold armed; simpl; lia|].
  rewrite run_cons. cbn [fst snd].
  rewrite opened_app, armed_app, length_app.
  pose proof (step_timers w i). pose proof (IH (step w i).1). lia.
Qed.

(** C2, on the code: with [max_reconnects = 2] a connection that keeps
    failing is retried once, not twice. However many abnormal closures
    follow the first, one timer is set in all, so one socket at most is
    opened again. *)
Theorem max_reconnects_2_retries_once (w : world) (ins : list input) :
  sockets (client w) ≠ 0%nat ->
  timers w = 0%nat ->
  reconnect (client w) = true ->
  max_reconnects (client w) = 2 ->
  current_reconnects (client w) = 0 ->
  forallb failing ins = true ->
  (1 <= closures ins)%nat ->
  armed (run w ins).2 = 1%nat
  ∧ (length (opened (run w ins).2) <= 1)%nat.
Proof.
  intros Hs Ht Hr Hm Hc Hall Hn.
  assert (armed (run w ins).2 = 1%nat) as Harmed.
  { rewrite capped_retries by (rewrite ?Hm; done).
    rewrite Hm, Hc. change (Z.to_nat (2 - 1 - 0)) with 1%nat. lia. }
  split; [done|]. pose proof (run_timers ins w). lia.
Qed.

(** C7: a closure with code 1000 is final. The close handler marks the client
    not ready and emits ["close"], and that is all: it sets no timer and
    leaves [current_reconnects] as it was; and as long as no timer was
    pending, no later turn of the loop (the socket, once closed, closes no
    more) sets a timer or opens a socket. *)
Theorem normal_closure_halts (w : world) (address : string) (options message : value) :
  let c := client w in
  let o := on_close c address options 1000 message in
  (effects o = emit (set_ready c false) (VStr "close") [VNum 1000; message]
   ∧ timeouts (effects o) = []
   ∧ completed o = Returned
   ∧ after o = set_ready c false
   ∧ current_reconnects (after o) = current_reconnects c)
  ∧ (timers (step w (Closed 1000 message)).1 = timers w
     ∧ timeouts (step w (Closed 1000 message)).2 = []
     ∧ current_reconnects (client (step w (Closed 1000 message)).1)
       = current_reconnects c)
  ∧ (timers w = 0%nat ->
     forall ins : list input, forallb not_closure ins = true ->
       timeouts (run (step w (Closed 1000 message)).1 ins).2 = []
       ∧ opened (run (step w (Closed 1000 message)).1 ins).2 = []).
Proof.
  intros c o.
  assert (timeouts (effects o) = []) as Hto.
  { apply (timeouts_emit (set_ready c false)). }
  split; [by repeat split|].
  assert (timers (step w (Closed 1000 message)).1 = timers w
          ∧ timeouts (step w (Closed 1000 message)).2 = []
          ∧ current_reconnects (client (step w (Closed 1000 message)).1)
            = current_reconnects c) as Hstep.
  { unfold step. fold c. destruct (sockets c =? 0)%nat; simpl; [done|].
    unfold armed. rewrite (timeouts_emit (set_ready c false)). simpl.
    by rewrite Nat.add_0_r. }
  split; [exact Hstep|].
  intros Ht ins Hall. apply run_quiet; [|done].
  destruct Hstep as (-> & _). exact Ht.
Qed.

(** C8: a payload that [JSON.parse] rejects is dropped. The handler returns
    without throwing and without calling anything (no callback of a pending
    call, no listener), and the world is the same after the turn: the queue,
    [rpc_id] and [ready] are untouched. *)
Theorem malformed_message_discarded (w : world) (data : string) :
  JSON_parse data = None ->
  on_message (client w) data = returned (client w) []
  ∧ step w (Message data) = (w, []).
Proof.
  intros Hparse.
  assert (on_message (client w) data = returned (client w) []) as Hm.
  { unfold on_message. by rewrite Hparse. }
  split; [exact Hm|].
  unfold step. destruct (sockets (client w) =? 0)%nat; simpl; [done|].
  rewrite Hm. unfold settle, idle. simpl. by rewrite settle_quiet.
Qed.

End Halt.

Lemma normal_closure_halts_witness :
  timers (boot "ws://localhost:8080/rpc/1.0" VUndef true true 1000 5).1 = 0%nat
  ∧ forallb not_closure [Call "ping" VUndef; Timeout; Open] = true
  ∧ timeouts (run (host := node)
       (step (host := node)
             (boot "ws://localhost:8080/rpc/1.0" VUndef true true 1000 5).1
             (Closed 1000 VUndef)).1
       [Call "ping" VUndef; Timeout; Open]).2 = [].
Proof.
  split; [reflexivity|]. split; [reflexivity|].
  apply (normal_closure_halts (host := node)
           (boot "ws://localhost:8080/rpc/1.0" VUndef true true 1000 5).1
           "ws://localhost:8080/rpc/1.0" VUndef VUndef);
    reflexivity.
Defined.

Lemma malformed_message_discarded_witness :
  JSON_parse (Host := node) "{oops" = None
  ∧ step (host := node) (boot "ws://localhost:8080/rpc/1.0" VUndef true true 1000 5).1
         (Message "{oops")
    = ((boot "ws://localhost:8080/rpc/1.0" VUndef true true 1000 5).1, []).
Proof.
  split; [reflexivity|].
  apply (malformed_message_discarded (host := node)). reflexivity.
Defined.

(** *** The message handler *)

Section Dispatch.
Context {host : Host}.

(** Reading the items of an array by index, from 0 to its length, gives the
    array. *)
Lemma index_all (items : list value) :
  map (index (VArr items)) (seq 0 (length items)) = items.
Proof.
  apply list_eq. intros i. rewrite list_lookup_fmap.
  destruct (decide (i < length items)%nat) as [Hlt|Hge].
  - rewrite lookup_seq_lt by done. simpl.
    destruct (lookup_lt_is_Some_2 items i Hlt) as [x Hx]. by rewrite Hx.
  - rewrite lookup_seq_ge by lia. simpl.
    symmetry. apply lookup_ge_None. lia.
Qed.

(** The arguments an event is emitted with, for parameters in an array. *)
Lemma dispatch_event (c : Client) (message name : value) (args : list value) :
  get message "notification" = Some name ->
  truthy name = true ->
  keyed name = true ->
  listeners c name ≠ [] ->
  get message "params" = Some (VArr args) ->
  dispatch c message = returned c (emit c name args).
Proof.
  intros Hn Ht Hk Hl Hp. unfold dispatch. rewrite Hn, Ht, Hk, Hp. simpl.
  destruct (listeners c name) as [|l ls] eqn:Hls; [done|]. simpl.
  destruct args as [|x args]; [reflexivity|].
  replace (negb (Z.of_nat (length (x :: args)) =? 0)) with true
    by (symmetry; apply negb_true_iff, Z.eqb_neq; simpl; lia).
  cbn [negb]. rewrite Nat2Z.id.
  by rewrite (index_all (x :: args)).
Qed.

(** A message that is not forwarded as an event goes to the queue. *)
Lemma dispatch_response (c : Client) (message name : value) :
  get message "notification" = Some name ->
  truthy name && negb (keyed name) = false ->
  truthy name && negb (length (listeners c name) =? 0)%nat = false ->
  dispatch c message =
    let id := default VUndef (get message "id") in
    if negb (keyed id) then threw c [] TypeError else
    match queue_get (queue c) (to_string id) with
    | Undefined | Null => returned c []
    | Inherited => threw c [] TypeError
    | Pending p =>
        let error := default VUndef (get message "error") in
        returned (set_queue c (<[to_string id := Tombstone]> (queue c)))
          [if truthy error then reject p error
           else resolve p (default VUndef (get message "result"))]
    end.
Proof. intros Hn Hk Hf. unfold dispatch. by rewrite Hn, Hk, Hf. Qed.

(** When the name of the notification has no key, [this.listeners] throws. *)
Lemma dispatch_no_key (c : Client) (message name : value) :
  get message "notification" = Some name ->
  truthy name && negb (keyed name) = true ->
  dispatch c message = threw c [] TypeError.
Proof. intros Hn Hk. unfold dispatch. by rewrite Hn, Hk. Qed.

(** A message whose [notification] is missing or a string passes the first
    conversion. *)
Lemma named_keyed (message : value) :
  named message ->
  exists name : value,
    get message "notification" = Some name
    ∧ truthy name && negb (keyed name) = false.
Proof.
  intros [Hn|[event Hn]]; eexists; (split; [exact Hn|]); [done|].
  apply andb_false_r.
Qed.

(** X21: an id that reads as a name of [Object.prototype], say the string
    ["constructor"], finds the inherited member: it is truthy and has no
    callbacks, so calling one throws. The ids of the protocol are numbers,
    whose keys are never such names. *)
Lemma inherited_id_throws (c : Client) (message id : value) :
  unheard c message ->
  get message "id" = Some id ->
  to_string id ∈ Object_prototype ->
  queue c !! to_string id = None ->
  dispatch c message = threw c [] TypeError.
Proof.
  intros (name & Hn & Hf) Hid Hin Hq.
  destruct (truthy name && negb (keyed name)) eqn:Hk;
    [by apply (dispatch_no_key c message name)|].
  rewrite (dispatch_response c message name Hn Hk Hf), Hid. simpl.
  destruct (negb (keyed id)); [reflexivity|].
  unfold queue_get. rewrite Hq. by rewrite bool_decide_eq_true_2.
Qed.

(** In a queue keyed by ids, nothing is stored under ["undefined"], the key
    that a message without [id] is looked up with. *)
Lemma keyed_by_ids_undefined (c : Client) :
  keyed_by_ids c -> queue_get (queue c) "undefined" = Undefined.
Proof.
  intros [_ Hk]. unfold queue_get.
  destruct (queue c !! "undefined") as [e|] eqn:Hq; [|reflexivity].
  destruct (Hk "undefined") as (id & Hid & _); [by rewrite Hq|].
  by destruct (pretty_not_undefined id).
Qed.

(** A name other than the empty string is truthy. *)
Lemma named_truthy (event : string) : event ≠ "" -> truthy (VStr event) = true.
Proof. by destruct event. Qed.

(** C6, amended: a pushed notification whose name is a string other than
    the empty one. With no listener attached to the name, and no [id] or a
    number under which no call is pending, it is dropped: the handler
    returns, calls nothing and changes nothing. With listeners attached, each
    of them is called once, in the order of attachment, with the items of
    [params] as its arguments, so with no argument when [params] is empty. *)
Theorem notification_fan_out (c : Client) (message : value) (event : string) :
  keyed_by_ids c ->
  get message "notification" = Some (VStr event) ->
  event ≠ "" ->
  (listeners c (VStr event) = [] ->
   get message "id" = Some VUndef
   ∨ (exists n : Z,
        get message "id" = Some (VNum n)
        ∧ (queue c !! pretty n = None ∨ queue c !! pretty n = Some Tombstone)) ->
   dispatch c message = returned c [])
  ∧ (listeners c (VStr event) ≠ [] ->
     forall args : list value,
       get message "params" = Some (VArr args) ->
       dispatch c message =
         returned c (map (fun l => listener_call l args)
                         (listeners c (VStr event)))).
Proof.
  intros Hk Hn Ht%named_truthy. split.
  - intros Hl Hid.
    rewrite (dispatch_response c message (VStr event) Hn)
      by (by rewrite ?Hl, ?andb_false_r).
    destruct Hid as [Hid|(n & Hid & Hq)]; rewrite Hid; simpl.
    + by rewrite keyed_by_ids_undefined.
    + rewrite queue_get_number. by destruct Hq as [-> | ->].
  - intros Hl args Hp. by apply dispatch_event.
Qed.

(** C9, amended: a message whose [notification] is a string to which no
    listener is attached is handled as a response. If its [id] is that of a
    pending call, the call is settled by it, rejected with [error] when that
    is truthy and resolved with [result] otherwise, and its entry becomes
    [null]. *)
Theorem unheard_notification_settles_call (c : Client) (message : value)
    (event : string) (n : Z) (p : promise) :
  get message "notification" = Some (VStr event) ->
  listeners c (VStr event) = [] ->
  get message "id" = Some (VNum n) ->
  queue c !! pretty n = Some (Callbacks p) ->
  dispatch c message =
    let error := default VUndef (get message "error") in
    returned (set_queue c (<[pretty n := Tombstone]> (queue c)))
      [if truthy error then reject p error
       else resolve p (default VUndef (get message "result"))].
Proof.
  intros Hn Hl Hid Hq.
  rewrite (dispatch_response c message (VStr event) Hn)
    by (by rewrite ?Hl, ?andb_false_r).
  rewrite Hid. simpl. unfold queue_get. by rewrite Hq.
Qed.

(** C10, amended: a payload that decodes to a message whose [notification]
    is a string other than the empty one, to which a listener is attached,
    and which has no [params] or whose [params] is [null], makes the handler
    throw a TypeError: nothing is emitted and the client is unchanged. *)
Theorem event_without_params_throws (c : Client) (data : string)
    (message : value) (event : string) :
  JSON_parse data = Some message ->
  get message "notification" = Some (VStr event) ->
  event ≠ "" ->
  listeners c (VStr event) ≠ [] ->
  get message "params" = Some VUndef ∨ get message "params" = Some VNull ->
  on_message c data = threw c [] TypeError.
Proof.
  intros Hparse Hn Ht%named_truthy Hl Hp. unfold on_message, dispatch.
  rewrite Hparse, Hn, Ht. simpl.
  destruct (listeners c (VStr event)) as [|l ls]; [done|]. simpl.
  by destruct Hp as [-> | ->].
Qed.

End Dispatch.

Lemma notification_fan_out_witness :
  keyed_by_ids listening
  ∧ get tick_1_2 "notification" = Some (VStr "tick")
  ∧ dispatch (host := node) listening tick_1_2 =
      returned listening [listener_call 7%nat [VNum 1; VNum 2]].
Proof.
  assert (keyed_by_ids listening) as Hk.
  { split; [done|]. intros k [e He]. simpl in He. by rewrite lookup_empty in He. }
  split; [exact Hk|]. split; [reflexivity|].
  destruct (notification_fan_out (host := node) listening tick_1_2 "tick" Hk)
    as [_ Hheard]; [reflexivity|discriminate|].
  apply Hheard; [discriminate|reflexivity].
Defined.

(** C6 as stated fails on two messages. A listener attached to the empty
    name is never called, since the handler tests the name for truth: the
    notification goes to the queue and is dropped there. A notification
    without listeners that carries the id of a pending call is not dropped:
    it calls the callback of the call. *)
Lemma notification_not_fanned_out :
  listeners unnamed_listening (VStr "") = [7%nat]
  ∧ dispatch (host := node) unnamed_listening unnamed_1_2
    = returned unnamed_listening []
  ∧ listeners awaiting (VStr "tock") = []
  ∧ dispatch (host := node) awaiting tock_1
    = returned (set_queue awaiting (<["1" := Tombstone]> (queue awaiting)))
               [resolve 0%nat (VStr "one")].
Proof. repeat split. Qed.

Lemma unheard_notification_settles_call_witness :
  listeners awaiting (VStr "tock") = []
  ∧ queue awaiting !! pretty 1 = Some (Callbacks 0%nat)
  ∧ dispatch (host := node) awaiting tock_1 =
      returned (set_queue awaiting (<["1" := Tombstone]> (queue awaiting)))
               [resolve 0%nat (VStr "one")].
Proof.
  split; [reflexivity|]. split; [reflexivity|].
  apply (unheard_notification_settles_call (host := node) awaiting tock_1
           "tock" 1 0%nat); reflexivity.
Defined.

(** C9 as stated fails on a message that has an [error] member which is not
    truthy: the handler tests [message.error] for truth, so the call is not
    rejected but resolved, with the [result] that the message lacks. *)
Lemma null_error_resolves :
  listeners awaiting (VStr "tock") = []
  ∧ get tock_null_error "error" = Some VNull
  ∧ dispatch (host := node) awaiting tock_null_error
    = returned (set_queue awaiting (<["1" := Tombstone]> (queue awaiting)))
               [resolve 0%nat VUndef].
Proof. repeat split. Qed.

Example error_response_rejects :
  dispatch (host := node) awaiting (error_response 1 (VStr "no such method"))
  = returned (set_queue awaiting (<["1" := Tombstone]> (queue awaiting)))
             [reject 0%nat (VStr "no such method")].
Proof. reflexivity. Qed.

Lemma event_without_params_throws_witness :
  JSON_parse (Host := node) "tick" = Some tick_bare
  ∧ on_message (host := node) listening "tick" = threw listening [] TypeError.
Proof.
  split; [reflexivity|].
  apply (event_without_params_throws (host := node) listening "tick" tick_bare
           "tick"); [reflexivity|reflexivity|discriminate|discriminate|].
  left. reflexivity.
Defined.

(** C10 as stated fails: a number, or an object of parameters by name, has no
    [length], yet reading [params.length] gives [undefined] and does not
    throw; the event is emitted without arguments. And an event named by the
    empty string is never forwarded, so that a message for it without
    [params] is dropped without a throw although a listener is attached. *)
Lemma params_without_length_emit :
  listeners listening (VStr "tick") = [7%nat]
  ∧ get tick_5 "params" ≫= (fun params => get params "length") = Some VUndef
  ∧ dispatch (host := node) listening tick_5 =
      returned listening [listener_call 7%nat []]
  ∧ get tick_by_name "params" ≫= (fun params => get params "length") = Some VUndef
  ∧ dispatch (host := node) listening tick_by_name =
      returned listening [listener_call 7%nat []]
  ∧ listeners unnamed_listening (VStr "") = [7%nat]
  ∧ get unnamed_bare "params" = Some VUndef
  ∧ dispatch (host := node) unnamed_listening unnamed_bare
    = returned unnamed_listening [].
Proof. repeat split. Qed.

(** *** The registry of requests *)

Lemma call_ids_app (cbs1 cbs2 : list send_callback) :
  call_ids (cbs1 ++ cbs2) = call_ids cbs1 ++ call_ids cbs2.
Proof. apply omap_app. Qed.

Lemma promises_of_app (cbs1 cbs2 : list send_callback) :
  promises_of (cbs1 ++ cbs2) = promises_of cbs1 ++ promises_of cbs2.
Proof. apply map_app. Qed.

Lemma registry_empty : registry ∅ 0 [] 0.
Proof.
  unfold registry. split; [done|].
  split; [by intros k [e He%lookup_empty_Some]|].
  split; [by intros id Hid%elem_of_nil|].
  split; [apply NoDup_nil_2|]. split; [apply NoDup_nil_2|].
  split; [by intros p Hp%elem_of_nil|].
  split; [by intros k p Hq%lookup_empty_Some|].
  by intros k1 k2 p Hq%lookup_empty_Some.
Qed.

Section Registry.
Variables (q : gmap string entry) (n : Z) (cbs : list send_callback) (ps : nat).
Hypothesis Hreg : registry q n cbs ps.

(** A promise is created and settled at once, or kept nowhere. *)
Lemma registry_promise : registry q n cbs (S ps).
Proof.
  destruct Hreg as (Hn & Hkeys & Hfly & Hids & Hps & Hbound & Hq & Hone).
  do 5 (split; [done|]). split.
  - intros p Hp. specialize (Hbound p Hp). lia.
  - split; [|done]. intros k p Hk.
    destruct (Hq k p Hk) as [Hlt Hnot]. split; [lia|done].
Qed.

(** [call] allocates the next id and hands its callback to the socket. *)
Lemma registry_call :
  registry q (n + 1) (cbs ++ [CallSent (n + 1) ps]) (S ps).
Proof.
  destruct Hreg as (Hn & Hkeys & Hfly & Hids & Hps & Hbound & Hq & Hone).
  assert (q !! pretty (n + 1) = None) as Hfresh.
  { destruct (q !! pretty (n + 1)) as [e|] eqn:He; [|done].
    destruct (Hkeys (pretty (n + 1))) as (id & Hid & Hrange); [by rewrite He|].
    apply (inj pretty) in Hid. lia. }
  unfold registry. rewrite call_ids_app, promises_of_app. simpl.
  split; [lia|]. split.
  { intros k Hk. destruct (Hkeys k Hk) as (id & -> & Hid).
    exists id. split; [done|lia]. }
  split.
  { intros id [Hin|Hin%list_elem_of_singleton]%elem_of_app.
    - destruct (Hfly id Hin) as [Hrange Hnone]. split; [lia|done].
    - subst id. split; [lia|done]. }
  split.
  { apply NoDup_app. split; [done|]. split; [|apply NoDup_singleton].
    intros id Hin ->%list_elem_of_singleton.
    destruct (Hfly _ Hin) as [Hrange _]. lia. }
  split.
  { apply NoDup_app. split; [done|]. split; [|apply NoDup_singleton].
    intros p Hin ->%list_elem_of_singleton.
    specialize (Hbound _ Hin). lia. }
  split.
  { intros p [Hin|Hin%list_elem_of_singleton]%elem_of_app.
    - specialize (Hbound _ Hin). lia.
    - subst p. lia. }
  split; [|done].
  intros k p Hk. destruct (Hq k p Hk) as [Hlt Hnot]. split; [lia|].
  intros [Hin|Hin%list_elem_of_singleton]%elem_of_app; [done|lia].
Qed.

(** [notify] hands its callback to the socket. *)
Lemma registry_notify : registry q n (cbs ++ [NotifySent ps]) (S ps).
Proof.
  destruct Hreg as (Hn & Hkeys & Hfly & Hids & Hps & Hbound & Hq & Hone).
  unfold registry. rewrite call_ids_app, promises_of_app. simpl.
  rewrite app_nil_r.
  do 4 (split; [done|]). split.
  { apply NoDup_app. split; [done|]. split; [|apply NoDup_singleton].
    intros p Hin ->%list_elem_of_singleton.
    specialize (Hbound _ Hin). lia. }
  split.
  { intros p [Hin|Hin%list_elem_of_singleton]%elem_of_app.
    - specialize (Hbound _ Hin). lia.
    - subst p. lia. }
  split; [|done].
  intros k p Hk. destruct (Hq k p Hk) as [Hlt Hnot]. split; [lia|].
  intros [Hin|Hin%list_elem_of_singleton]%elem_of_app; [done|lia].
Qed.

(** A response replaces the entry of the call it answers by [null]. *)
Lemma registry_tombstone (k : string) (p : promise) :
  q !! k = Some (Callbacks p) ->
  registry (<[k := Tombstone]> q) n cbs ps.
Proof.
  intros Hk.
  destruct Hreg as (Hn & Hkeys & Hfly & Hids & Hps & Hbound & Hq & Hone).
  split; [done|]. split.
  { intros k' Hk'. apply Hkeys.
    destruct (decide (k = k')) as [<-|Hne]; [by rewrite Hk|].
    by rewrite lookup_insert_ne in Hk'. }
  split.
  { intros id Hin. destruct (Hfly id Hin) as [Hrange Hnone].
    split; [done|]. rewrite lookup_insert_ne; [done|].
    intros ->. by rewrite Hk in Hnone. }
  do 3 (split; [done|]). split.
  - intros k' p' Hk'. apply (Hq k').
    destruct (decide (k = k')) as [<-|Hne];
      [by rewrite lookup_insert_eq in Hk'|by rewrite lookup_insert_ne in Hk'].
  - intros k1 k2 p' H1 H2. apply (Hone k1 k2 p').
    + destruct (decide (k = k1)) as [<-|Hne];
        [by rewrite lookup_insert_eq in H1|by rewrite lookup_insert_ne in H1].
    + destruct (decide (k = k2)) as [<-|Hne];
        [by rewrite lookup_insert_eq in H2|by rewrite lookup_insert_ne in H2].
Qed.

(** The socket calls a callback it holds, with an error, or the callback of
    a notification: the callback is gone. *)
Lemma registry_drop (cb : send_callback) (cbs' : list send_callback) :
  cbs ≡ₚ cb :: cbs' ->
  registry q n cbs' ps.
Proof.
  intros Hperm.
  destruct Hreg as (Hn & Hkeys & Hfly & Hids & Hps & Hbound & Hq & Hone).
  assert (forall id, id ∈ call_ids cbs' -> id ∈ call_ids cbs) as Hsub.
  { intros id Hin. unfold call_ids. rewrite Hperm. simpl.
    destruct cb; [right|]; done. }
  assert (forall p, p ∈ promises_of cbs' -> p ∈ promises_of cbs) as Hsubp.
  { intros p Hin. unfold promises_of. rewrite Hperm. simpl. by right. }
  split; [done|]. split; [done|]. split; [by intros id Hin%Hsub%Hfly|].
  split.
  { unfold call_ids in Hids. rewrite Hperm in Hids. simpl in Hids.
    destruct cb; [by apply NoDup_cons in Hids as [_ ?]|done]. }
  split.
  { unfold promises_of in Hps. rewrite Hperm in Hps. simpl in Hps.
    by apply NoDup_cons in Hps as [_ ?]. }
  split; [by intros p Hin%Hsubp%Hbound|].
  split; [|done].
  intros k p Hk. destruct (Hq k p Hk) as [Hlt Hnot]. split; [done|].
  intros Hin. by apply Hnot, Hsubp.
Qed.

(** The socket confirms a request: the callbacks of its promise enter the
    queue under its id. *)
Lemma registry_ack (id : Z) (p : promise) (cbs' : list send_callback) :
  cbs ≡ₚ CallSent id p :: cbs' ->
  registry (<[pretty id := Callbacks p]> q) n cbs' ps.
Proof.
  intros Hperm.
  pose proof (registry_drop _ _ Hperm) as
    (_ & _ & Hfly' & Hids' & Hps' & Hbound' & Hq' & _).
  destruct Hreg as (Hn & Hkeys & Hfly & Hids & Hps & Hbound & Hq & Hone).
  assert (id ∈ call_ids cbs) as Hid.
  { unfold call_ids. rewrite Hperm. simpl. by left. }
  assert (p ∈ promises_of cbs) as Hp.
  { unfold promises_of. rewrite Hperm. simpl. by left. }
  assert (id ∉ call_ids cbs') as Hid'.
  { unfold call_ids in Hids. rewrite Hperm in Hids. simpl in Hids.
    by apply NoDup_cons in Hids as [? _]. }
  assert (p ∉ promises_of cbs') as Hp'.
  { unfold promises_of in Hps. rewrite Hperm in Hps. simpl in Hps.
    by apply NoDup_cons in Hps as [? _]. }
  split; [done|]. split.
  { intros k Hk. destruct (decide (pretty id = k)) as [<-|Hne].
    - exists id. split; [done|]. by destruct (Hfly id Hid).
    - rewrite lookup_insert_ne in Hk by done. by apply Hkeys. }
  split.
  { intros id' Hin. destruct (Hfly' id' Hin) as [Hrange Hnone].
    split; [done|]. rewrite lookup_insert_ne; [done|].
    intros Heq%(inj pretty). by subst id'. }
  do 3 (split; [done|]). split.
  - intros k p' Hk. destruct (decide (pretty id = k)) as [<-|Hne].
    + rewrite lookup_insert_eq in Hk. injection Hk as <-.
      split; [by apply Hbound|done].
    + rewrite lookup_insert_ne in Hk by done. by apply (Hq' k).
  - intros k1 k2 p' H1 H2.
    destruct (decide (pretty id = k1)) as [<-|Hne1];
      destruct (decide (pretty id = k2)) as [<-|Hne2]; [done| | |].
    + rewrite lookup_insert_eq in H1. injection H1 as <-.
      rewrite lookup_insert_ne in H2 by done. by destruct (Hq k2 p H2).
    + rewrite lookup_insert_eq in H2. injection H2 as <-.
      rewrite lookup_insert_ne in H1 by done. by destruct (Hq k1 p H1).
    + rewrite lookup_insert_ne in H1 by done.
      rewrite lookup_insert_ne in H2 by done. by apply (Hone k1 k2 p').
Qed.

End Registry.

(** *** The loop keeps the registry in order *)

#[local] Arguments emit : simpl never.

Section Invariant.
Context {host : Host}.

Lemma settled_emit (c : Client) (name : value) (args : list value) :
  settled (emit c name args) = [].
Proof. unfold emit. induction (listeners c name); [reflexivity|done]. Qed.

Lemma settled_app (es1 es2 : list effect) :
  settled (es1 ++ es2) = settled es1 ++ settled es2.
Proof. apply omap_app. Qed.

Lemma settled_settlement (message : value) (p : promise) :
  settled [settlement message p] = [p].
Proof. unfold settlement. by destruct (truthy _). Qed.

(** The message handler either leaves the client as it is, calling at most
    the listeners of one event, or answers one pending call. *)
Lemma dispatch_cases (c : Client) (message : value) :
  (after (dispatch c message) = c
   ∧ (effects (dispatch c message) = []
      ∨ exists name args, effects (dispatch c message) = emit c name args))
  ∨ (exists (k : string) (p : promise),
        queue c !! k = Some (Callbacks p)
        ∧ after (dispatch c message) = set_queue c (<[k := Tombstone]> (queue c))
        ∧ effects (dispatch c message) = [settlement message p]).
Proof.
  unfold dispatch.
  destruct (get message "notification") as [name|]; [|left; by split; [|left]].
  destruct (truthy name && negb (keyed name)); [left; by split; [|left]|].
  destruct (truthy name && negb (length (listeners c name) =? 0)%nat).
  - left. destruct (get message "params" ≫= _) as [len|]; [|by split; [|left]].
    destruct (negb (truthy len)); [split; [done|right; eauto]|].
    destruct (negb (keyed len)); [by split; [|left]|].
    destruct (rounds len); [split; [done|right; eauto]|by split; [|left]].
  - destruct (negb (keyed _)); [left; by split; [|left]|].
    unfold queue_get.
    destruct (queue c !! _) as [[p|]|] eqn:Hq;
      [|left; by split; [|left]|
       destruct (bool_decide _); left; by split; [|left]].
    right. exists (to_string (default VUndef (get message "id"))), p.
    by repeat split.
Qed.

Lemma on_message_cases (c : Client) (data : string) :
  (after (on_message c data) = c
   ∧ (effects (on_message c data) = []
      ∨ exists name args, effects (on_message c data) = emit c name args))
  ∨ (exists (k : string) (p : promise) (message : value),
        queue c !! k = Some (Callbacks p)
        ∧ after (on_message c data) = set_queue c (<[k := Tombstone]> (queue c))
        ∧ effects (on_message c data) = [settlement message p]).
Proof.
  unfold on_message. destruct (JSON_parse data) as [message|];
    [|left; by split; [|left]].
  destruct (dispatch_cases c message) as [?|(k & p & ?)]; [by left|].
  right. by exists k, p, message.
Qed.

Lemma handed_settlement (message : value) (p : promise) :
  handed [settlement message p] = [].
Proof. unfold settlement. by destruct (truthy _). Qed.

Lemma handed_on_close (c : Client) (address : string) (options : value)
    (code : Z) (message : value) :
  handed (effects (on_close c address options code message)) = [].
Proof.
  unfold on_close. repeat case_match; simpl;
    rewrite ?handed_app, ?(handed_emit (set_ready c false)); done.
Qed.

Lemma settled_on_close (c : Client) (address : string) (options : value)
    (code : Z) (message : value) :
  settled (effects (on_close c address options code message)) = [].
Proof.
  unfold on_close. repeat case_match; simpl;
    rewrite ?settled_app, ?(settled_emit (set_ready c false)); done.
Qed.

(** Every turn of the loop keeps the world consistent. *)
Lemma step_consistent (w : world) (i : input) :
  consistent w -> consistent (step w i).1.
Proof.
  intros [Hreg Hready]. unfold consistent, step.
  destruct i as [m ps|m ps|code data| |data|error|code message|i error| |evs].
  - unfold call. destruct (ready (client w)) eqn:Hr; simpl.
    + rewrite (proj2 (Nat.eqb_neq _ 0) (Hready eq_refl)). simpl.
      split; [by apply registry_call|by rewrite Hr].
    + rewrite app_nil_r. split; [by apply registry_promise|by rewrite Hr].
  - unfold notify. destruct (ready (client w)) eqn:Hr; simpl.
    + rewrite (proj2 (Nat.eqb_neq _ 0) (Hready eq_refl)). simpl.
      split; [by apply registry_notify|by rewrite Hr].
    + rewrite app_nil_r. split; [by apply registry_promise|by rewrite Hr].
  - unfold close. destruct (sockets (client w) =? 0)%nat; simpl;
      by rewrite app_nil_r.
  - destruct (sockets (client w) =? 0)%nat eqn:Hs; simpl; [done|].
    rewrite (handed_emit (set_ready (client w) true)), app_nil_r.
    split; [done|]. intros _. by apply Nat.eqb_neq.
  - destruct (sockets (client w) =? 0)%nat eqn:Hs; simpl; [done|].
    destruct (on_message_cases (client w) data)
      as [[-> [->| (name & args & ->)]]|(k & p & message & Hk & -> & ->)];
      rewrite ?handed_emit, ?handed_settlement, ?app_nil_r; simpl; try done.
    split; [by eapply registry_tombstone|done].
  - destruct (sockets (client w) =? 0)%nat eqn:Hs; simpl; [done|].
    unfold on_error. destruct (listeners _ _) eqn:Hl; simpl;
      by rewrite ?handed_emit, app_nil_r.
  - destruct (sockets (client w) =? 0)%nat eqn:Hs; simpl; [done|].
    rewrite handed_on_close, app_nil_r.
    unfold on_close. repeat case_match; simpl; done.
  - destruct (inflight w !! i) as [[id p|p]|] eqn:Hi; simpl; [| |done].
    + apply delete_Permutation in Hi.
      unfold call_sent. destruct (truthy error); simpl; rewrite app_nil_r.
      * split; [by eapply registry_drop|done].
      * split; [by eapply registry_ack|done].
    + apply delete_Permutation in Hi.
      unfold notify_sent. destruct (truthy error); simpl; rewrite app_nil_r;
        (split; [by eapply registry_drop|done]).
  - destruct (timers w); simpl; [done|]. rewrite app_nil_r.
    split; [done|lia].
  - simpl. by rewrite app_nil_r.
Qed.

Lemma run_consistent (ins : list input) : forall w : world,
  consistent w -> consistent (run w ins).1.
Proof.
  induction ins as [|i ins IH]; intros w Hw; [done|].
  rewrite run_cons. cbn [fst]. by apply IH, step_consistent.
Qed.

End Invariant.

(** The world that [new Client] starts in is consistent, and so is every
    world that the loop reaches from it. *)
Lemma boot_consistent (address : string) (options : value)
    (autoconnect reconnect : bool) (reconnect_interval max_reconnects : Z) :
  consistent (boot address options autoconnect reconnect
                   reconnect_interval max_reconnects).1.
Proof.
  unfold consistent, boot, constructor.
  destruct autoconnect; simpl; (split; [apply registry_empty|done]).
Qed.

Lemma reachable_consistent {host : Host} (address : string) (options : value)
    (autoconnect reconnect : bool) (reconnect_interval max_reconnects : Z)
    (ins : list input) :
  consistent (run (boot address options autoconnect reconnect
                        reconnect_interval max_reconnects).1 ins).1.
Proof. apply run_consistent, boot_consistent. Qed.

(** *** Calls and their registration *)

Section Calls.
Context {host : Host}.

Lemma call_ids_delete (cbs : list send_callback) (i : nat) (id : Z) :
  id ∈ call_ids (delete i cbs) -> id ∈ call_ids cbs.
Proof.
  unfold call_ids. rewrite !list_elem_of_omap.
  intros (cb & Hin & Hcb). exists cb. split; [|done].
  by eapply list_elem_of_delete_inv.
Qed.

(** An id that is retired stays retired: no turn of the loop puts it in
    flight or in the queue again. *)
Lemma retired_step (w : world) (i : input) (id : Z) :
  retired w id -> retired (step w i).1 id.
Proof.
  intros (Hle & Hfly & Hq). unfold retired, step.
  destruct i as [m ps|m ps|code data| |data|error|code message|i error| |evs].
  - unfold call. destruct (ready (client w)); simpl;
      [|by rewrite app_nil_r].
    destruct (sockets (client w) =? 0)%nat; simpl.
    + rewrite app_nil_r. split; [lia|done].
    + split; [lia|]. split; [|done].
      rewrite call_ids_app. simpl.
      intros [Hin|Hin%list_elem_of_singleton]%elem_of_app; [done|lia].
  - unfold notify. destruct (ready (client w)); simpl;
      [|by rewrite app_nil_r].
    destruct (sockets (client w) =? 0)%nat; simpl; [by rewrite app_nil_r|].
    rewrite call_ids_app. simpl. by rewrite app_nil_r.
  - unfold close. destruct (sockets (client w) =? 0)%nat; simpl;
      by rewrite app_nil_r.
  - destruct (sockets (client w) =? 0)%nat; simpl; [done|].
    by rewrite (handed_emit (set_ready (client w) true)), app_nil_r.
  - destruct (sockets (client w) =? 0)%nat; simpl; [done|].
    destruct (on_message_cases (client w) data)
      as [[-> [->| (name & args & ->)]]|(k & p & message & Hk & -> & ->)];
      rewrite ?handed_emit, ?handed_settlement, ?app_nil_r; simpl; try done.
    do 2 (split; [done|]). rewrite lookup_insert_ne; [done|].
    intros ->. by rewrite Hk in Hq.
  - destruct (sockets (client w) =? 0)%nat; simpl; [done|].
    unfold on_error. destruct (listeners _ _); simpl;
      by rewrite ?handed_emit, app_nil_r.
  - destruct (sockets (client w) =? 0)%nat; simpl; [done|].
    rewrite handed_on_close, app_nil_r.
    unfold on_close. repeat case_match; simpl; done.
  - destruct (inflight w !! i) as [[id' p|p]|] eqn:Hi; simpl; [| |done].
    + assert (id' ∈ call_ids (inflight w)) as Hin.
      { unfold call_ids. apply list_elem_of_omap. exists (CallSent id' p).
        split; [by eapply list_elem_of_lookup_2|done]. }
      assert (id ∉ call_ids (delete i (inflight w))) as Hdel.
      { intros Hd. by apply Hfly, (call_ids_delete _ i). }
      unfold call_sent. destruct (truthy error); simpl; rewrite app_nil_r;
        [done|].
      do 2 (split; [done|]). rewrite lookup_insert_ne; [done|].
      intros Heq%(inj pretty). by subst id'.
    + assert (id ∉ call_ids (delete i (inflight w))) as Hdel.
      { intros Hd. by apply Hfly, (call_ids_delete _ i). }
      unfold notify_sent. destruct (truthy error); simpl;
        by rewrite app_nil_r.
  - destruct (timers w); simpl; [done|]. by rewrite app_nil_r.
  - simpl. by rewrite app_nil_r.
Qed.

Lemma retired_run (ins : list input) : forall (w : world) (id : Z),
  retired w id -> retired (run w ins).1 id.
Proof.
  induction ins as [|i ins IH]; intros w id Hw; [done|].
  rewrite run_cons. cbn [fst]. by apply IH, retired_step.
Qed.


End Calls.

(** *** Ids and the matching of responses *)

Section Matching.
Context {host : Host}.

Lemma allocated_app (es1 es2 : list effect) :
  allocated (es1 ++ es2) = allocated es1 ++ allocated es2.
Proof. unfold allocated. by rewrite handed_app, call_ids_app. Qed.

(** Only [call] moves the counter, by one, and the id it allocates is the
    new value of the counter. *)
Ltac unmoved := left; split; [reflexivity|simpl; lia].

Lemma step_allocates (w : world) (i : input) :
  let n := rpc_id (client w) in
  let n' := rpc_id (client (step w i).1) in
  (allocated (step w i).2 = [] ∧ n <= n' <= n + 1)
  ∨ (allocated (step w i).2 = [n + 1] ∧ n' = n + 1).
Proof.
  unfold step, allocated.
  destruct i as [m ps|m ps|code data| |data|error|code message|i error| |evs].
  - unfold call. destruct (ready (client w)); simpl; [|unmoved].
    destruct (sockets (client w) =? 0)%nat; simpl; [unmoved|by right].
  - unfold notify. destruct (ready (client w)); simpl; [|unmoved].
    destruct (sockets (client w) =? 0)%nat; simpl; unmoved.
  - unfold close. destruct (sockets (client w) =? 0)%nat; simpl; unmoved.
  - destruct (sockets (client w) =? 0)%nat; simpl; [unmoved|].
    rewrite (handed_emit (set_ready (client w) true)). unmoved.
  - destruct (sockets (client w) =? 0)%nat; simpl; [unmoved|].
    destruct (on_message_cases (client w) data)
      as [[-> [->| (name & args & ->)]]|(k & p & message & Hk & -> & ->)];
      rewrite ?handed_emit, ?handed_settlement; simpl; unmoved.
  - destruct (sockets (client w) =? 0)%nat; simpl; [unmoved|].
    unfold on_error. destruct (listeners _ _); simpl;
      rewrite ?handed_emit; unmoved.
  - destruct (sockets (client w) =? 0)%nat; simpl; [unmoved|].
    rewrite handed_on_close.
    unfold on_close. repeat case_match; unmoved.
  - destruct (inflight w !! i) as [[id p|p]|]; simpl; [| |unmoved].
    + unfold call_sent. destruct (truthy error); simpl; unmoved.
    + unfold notify_sent. destruct (truthy error); simpl; unmoved.
  - destruct (timers w); simpl; unmoved.
  - unmoved.
Qed.

(** An input other than [call] leaves the counter as it is: a closure, a
    reconnection and an opening do not reset it. *)
Lemma step_keeps_rpc_id (w : world) (i : input) :
  (forall (method : string) (params : value), i ≠ Call method params) ->
  rpc_id (client (step w i).1) = rpc_id (client w).
Proof.
  intros Hi. unfold step.
  destruct i as [m ps|m ps|code data| |data|error|code message|i error| |evs].
  - by destruct (Hi m ps).
  - unfold notify. destruct (ready (client w)); simpl; [|done].
    by destruct (sockets (client w) =? 0)%nat.
  - unfold close. by destruct (sockets (client w) =? 0)%nat.
  - by destruct (sockets (client w) =? 0)%nat.
  - destruct (sockets (client w) =? 0)%nat; simpl; [done|].
    by destruct (on_message_cases (client w) data)
      as [[-> _]|(k & p & message & Hk & -> & _)].
  - destruct (sockets (client w) =? 0)%nat; simpl; [done|].
    unfold on_error. by destruct (listeners _ _).
  - destruct (sockets (client w) =? 0)%nat; simpl; [done|].
    unfold on_close. by repeat case_match.
  - destruct (inflight w !! i) as [[id p|p]|]; simpl; [| |done].
    + unfold call_sent. by destruct (truthy error).
    + unfold notify_sent. by destruct (truthy error).
  - by destruct (timers w).
  - done.
Qed.

(** The ids allocated along a run lie above the counter at its start, up to
    the counter at its end, in increasing order. *)
Lemma run_allocates (ins : list input) : forall w : world,
  let ids := allocated (run w ins).2 in
  rpc_id (client w) <= rpc_id (client (run w ins).1)
  ∧ Forall (fun id => rpc_id (client w) < id <= rpc_id (client (run w ins).1)) ids
  ∧ StronglySorted Z.lt ids.
Proof.
  induction ins as [|i ins IH]; intros w.
  { simpl. split; [lia|]. split; constructor. }
  rewrite run_cons. cbn [fst snd]. rewrite allocated_app. cbn zeta.
  destruct (IH (step w i).1) as (Hle & Hall & Hsorted).
  destruct (step_allocates w i) as [[-> Hn]|[-> Hn]]; simpl.
  - split; [lia|]. split; [|done].
    eapply Forall_impl; [exact Hall|]. simpl. intros id Hid. lia.
  - split; [lia|]. split.
    + constructor; [lia|].
      eapply Forall_impl; [exact Hall|]. simpl. intros id Hid. lia.
    + constructor; [done|].
      eapply Forall_impl; [exact Hall|]. simpl. intros id Hid. lia.
Qed.

(** A response to a pending call, delivered to a client with a socket. *)
Lemma step_response (w : world) (d : delivery) :
  sockets (client w) ≠ 0%nat ->
  JSON_parse (payload d) = Some (decoded d) ->
  get (decoded d) "notification" = Some VUndef ->
  get (decoded d) "id" = Some (VNum (answers d)) ->
  queue (client w) !! pretty (answers d) = Some (Callbacks (awaited d)) ->
  (step w (Message (payload d))).2 = [settlement (decoded d) (awaited d)]
  ∧ sockets (client (step w (Message (payload d))).1) = sockets (client w)
  ∧ queue (client (step w (Message (payload d))).1)
    = <[pretty (answers d) := Tombstone]> (queue (client w)).
Proof.
  intros Hs Hparse Hn Hid Hq. unfold step.
  rewrite (proj2 (Nat.eqb_neq _ 0) Hs). simpl.
  unfold on_message. rewrite Hparse.
  rewrite (dispatch_response (client w) (decoded d) VUndef) by done.
  rewrite Hid. simpl. unfold queue_get. by rewrite Hq.
Qed.

(** C4: the ids that [call] allocates along any run of the loop, whatever
    else happens in it (closures, reconnections, openings), are increasing,
    hence pairwise distinct, and positive; the counter never goes down and
    only [call] moves it. Responses are matched by id: delivered in any
    order, the responses to pending calls settle each the promise of the call
    that has their id. *)
Theorem ids_increase_and_match (w : world) :
  0 <= rpc_id (client w) ->
  (forall ins : list input,
     let ids := allocated (run w ins).2 in
     StronglySorted Z.lt ids
     ∧ NoDup ids
     ∧ Forall (fun id => 0 < id ∧ rpc_id (client w) < id) ids
     ∧ rpc_id (client w) <= rpc_id (client (run w ins).1))
  ∧ (forall i : input,
       (forall (method : string) (params : value), i ≠ Call method params) ->
       rpc_id (client (step w i).1) = rpc_id (client w))
  ∧ (forall deliveries : list delivery,
       sockets (client w) ≠ 0%nat ->
       NoDup (map answers deliveries) ->
       (forall d : delivery, d ∈ deliveries ->
          JSON_parse (payload d) = Some (decoded d)
          ∧ get (decoded d) "notification" = Some VUndef
          ∧ get (decoded d) "id" = Some (VNum (answers d))
          ∧ queue (client w) !! pretty (answers d) = Some (Callbacks (awaited d))) ->
       (run w (map (fun d => Message (payload d)) deliveries)).2
       = map (fun d => settlement (decoded d) (awaited d)) deliveries).
Proof.
  intros Hn. split; [|split].
  - intros ins ids. destruct (run_allocates ins w) as (Hle & Hall & Hsorted).
    fold ids in Hall, Hsorted. split; [done|]. split.
    + clear Hall. induction Hsorted as [|id ids' Hs IH Hlt]; constructor; [|done].
      intros Hin. rewrite Forall_forall in Hlt. specialize (Hlt _ Hin). lia.
    + split; [|done]. eapply Forall_impl; [exact Hall|].
      simpl. intros id Hid. lia.
  - apply step_keeps_rpc_id.
  - intros deliveries. revert w Hn.
    induction deliveries as [|d ds IH]; intros w Hn Hs Hnodup Hall; [done|].
    simpl in Hnodup. apply NoDup_cons in Hnodup as [Hd Hnodup].
    destruct (Hall d) as (Hparse & Hnot & Hid & Hq); [by left|].
    destruct (step_response w d Hs Hparse Hnot Hid Hq) as (Heff & Hs' & Hq').
    rewrite fmap_cons, run_cons. cbn [fst snd]. rewrite Heff. simpl.
    f_equal. apply (IH (step w (Message (payload d))).1).
    + rewrite step_keeps_rpc_id; [done|discriminate].
    + by rewrite Hs'.
    + done.
    + intros d' Hd'. destruct (Hall d') as (? & ? & ? & Hq''); [by right|].
      do 3 (split; [done|]). rewrite Hq', lookup_insert_ne; [done|].
      intros Heq%(inj pretty). apply Hd. rewrite Heq.
      by apply list_elem_of_fmap_2.
Qed.

End Matching.

(** *** Each promise is settled once *)

Section Once.
Context {host : Host}.

Lemma promises_of_delete (cbs : list send_callback) (i : nat) (p : promise) :
  p ∈ promises_of (delete i cbs) -> p ∈ promises_of cbs.
Proof.
  unfold promises_of. rewrite !list_elem_of_fmap.
  intros (cb & Hcb & Hin). exists cb. split; [done|].
  by eapply list_elem_of_delete_inv.
Qed.

(** The callback of a send, called by the socket: its promise was live and,
    unless the call is registered, is settled and no longer live. *)
Lemma dropped_promise (w : world) (i : nat) (cb : send_callback) :
  consistent w ->
  inflight w !! i = Some cb ->
  let p := match cb with CallSent _ p | NotifySent p => p end in
  p ∈ promises_of (inflight w)
  ∧ (p ∉ promises_of (delete i (inflight w)))
  ∧ (forall k : string, queue (client w) !! k ≠ Some (Callbacks p))
  ∧ (p < promises w)%nat.
Proof.
  intros [Hreg _] Hi p.
  destruct Hreg as (Hn & Hkeys & Hfly & Hids & Hps & Hbound & Hq & Hone).
  assert (p ∈ promises_of (inflight w)) as Hin.
  { unfold promises_of. apply list_elem_of_fmap. exists cb.
    split; [done|by eapply list_elem_of_lookup_2]. }
  split; [done|]. split.
  { unfold promises_of in Hps. rewrite (delete_Permutation _ _ _ Hi) in Hps.
    simpl in Hps. by apply NoDup_cons in Hps as [? _]. }
  split; [|by apply Hbound].
  intros k Hk. by destruct (Hq k p Hk).
Qed.

(** One turn of the loop settles at most one promise, one that was live and
    no longer is; and a promise that is not live does not become live. *)
Lemma step_settles (w : world) (i : input) :
  consistent w ->
  NoDup (settled (step w i).2)
  ∧ (forall p : promise, p ∈ settled (step w i).2 ->
       live w p ∧ ¬ live (step w i).1 p)
  ∧ (forall p : promise, ¬ live w p -> ¬ live (step w i).1 p).
Proof.
  intros Hw. pose proof Hw as [Hreg Hready].
  destruct Hreg as (Hn & Hkeys & Hfly & Hids & Hps & Hbound & Hq & Hone).
  assert (forall p, ¬ live w p ->
            (p ∉ promises_of (inflight w))
            ∧ (forall k, queue (client w) !! k ≠ Some (Callbacks p))
            ∧ (p < promises w)%nat) as Hdead.
  { intros p Hp. unfold live in Hp. split; [tauto|]. split; [|lia].
    intros k Hk. apply Hp. right. left. by exists k. }
  unfold step.
  destruct i as [m ps|m ps|code data| |data|error|code message|i error| |evs].
  - (* call *)
    unfold call. destruct (ready (client w)) eqn:Hr; simpl.
    + rewrite (proj2 (Nat.eqb_neq _ 0) (Hready eq_refl)). simpl.
      split; [constructor|]. split; [by intros p ?%elem_of_nil|].
      intros p (Hi & Hk & Hlt)%Hdead. unfold live. simpl.
      rewrite promises_of_app. simpl.
      intros [[?|?%list_elem_of_singleton]%elem_of_app|[[k ?]|?]];
        [done|lia|by apply (Hk k)|lia].
    + split; [apply NoDup_singleton|]. split.
      * intros p ->%list_elem_of_singleton. split; [right; right; done|].
        unfold live. simpl. rewrite app_nil_r.
        intros [Hin|[[k Hk]|?]]; [|by destruct (Hq k _ Hk); lia|lia].
        specialize (Hbound _ Hin). lia.
      * intros p (Hi & Hk & Hlt)%Hdead. unfold live. simpl.
        rewrite app_nil_r.
        intros [?|[[k ?]|?]]; [done|by apply (Hk k)|lia].
  - (* notify *)
    unfold notify. destruct (ready (client w)) eqn:Hr; simpl.
    + rewrite (proj2 (Nat.eqb_neq _ 0) (Hready eq_refl)). simpl.
      split; [constructor|]. split; [by intros p ?%elem_of_nil|].
      intros p (Hi & Hk & Hlt)%Hdead. unfold live. simpl.
      rewrite promises_of_app. simpl.
      intros [[?|?%list_elem_of_singleton]%elem_of_app|[[k ?]|?]];
        [done|lia|by apply (Hk k)|lia].
    + split; [apply NoDup_singleton|]. split.
      * intros p ->%list_elem_of_singleton. split; [right; right; done|].
        unfold live. simpl. rewrite app_nil_r.
        intros [Hin|[[k Hk]|?]]; [|by destruct (Hq k _ Hk); lia|lia].
        specialize (Hbound _ Hin). lia.
      * intros p (Hi & Hk & Hlt)%Hdead. unfold live. simpl.
        rewrite app_nil_r.
        intros [?|[[k ?]|?]]; [done|by apply (Hk k)|lia].
  - (* close *)
    unfold close. destruct (sockets (client w) =? 0)%nat; simpl;
      (split; [constructor|]); (split; [by intros p ?%elem_of_nil|]);
      unfold live; simpl; by rewrite app_nil_r.
  - (* open *)
    destruct (sockets (client w) =? 0)%nat; simpl;
      rewrite ?(settled_emit (set_ready (client w) true)),
        ?(handed_emit (set_ready (client w) true));
      (split; [constructor|]); (split; [by intros p ?%elem_of_nil|]);
      unfold live; simpl; by rewrite ?app_nil_r.
  - (* message *)
    destruct (sockets (client w) =? 0)%nat; simpl.
    { split; [constructor|]. split; [by intros p ?%elem_of_nil|done]. }
    destruct (on_message_cases (client w) data)
      as [[-> [->| (name & args & ->)]]|(k & p & message & Hk & -> & ->)];
      rewrite ?settled_emit, ?handed_emit, ?settled_settlement,
        ?handed_settlement.
    + split; [constructor|]. split; [by intros p ?%elem_of_nil|].
      unfold live; simpl; by rewrite ?app_nil_r.
    + split; [constructor|]. split; [by intros p ?%elem_of_nil|].
      unfold live; simpl; by rewrite ?app_nil_r.
    + destruct (Hq k p Hk) as [Hlt Hnot].
      split; [apply NoDup_singleton|]. split.
      * intros p' ->%list_elem_of_singleton.
        split; [right; left; by exists k|].
        unfold live. simpl. rewrite app_nil_r.
        intros [?|[[k' Hk']|?]]; [done| |lia].
        destruct (decide (k = k')) as [<-|Hne];
          [by rewrite lookup_insert_eq in Hk'|].
        rewrite lookup_insert_ne in Hk' by done.
        by destruct Hne; apply (Hone k k' p).
      * intros p' (Hi' & Hk' & Hlt')%Hdead. unfold live. simpl.
        rewrite app_nil_r.
        intros [?|[[k' Hk'']|?]]; [done| |lia].
        destruct (decide (k = k')) as [<-|Hne];
          [by rewrite lookup_insert_eq in Hk''|].
        rewrite lookup_insert_ne in Hk'' by done. by apply (Hk' k').
  - (* error *)
    destruct (sockets (client w) =? 0)%nat; simpl.
    { split; [constructor|]. split; [by intros p ?%elem_of_nil|done]. }
    unfold on_error. destruct (listeners _ _); simpl;
      rewrite ?settled_emit, ?handed_emit;
      (split; [constructor|]); (split; [by intros p ?%elem_of_nil|]);
      unfold live; simpl; by rewrite ?app_nil_r.
  - (* closed *)
    destruct (sockets (client w) =? 0)%nat; simpl.
    { split; [constructor|]. split; [by intros p ?%elem_of_nil|done]. }
    rewrite settled_on_close, handed_on_close.
    split; [constructor|]. split; [by intros p ?%elem_of_nil|].
    unfold live. simpl. rewrite app_nil_r.
    unfold on_close. by repeat case_match.
  - (* sent *)
    destruct (inflight w !! i) as [cb|] eqn:Hi; simpl.
    2:{ split; [constructor|]. split; [by intros p ?%elem_of_nil|done]. }
    destruct (dropped_promise w i cb Hw Hi) as (Hin & Hout & Hnoq & Hlt).
    assert (forall p', ¬ live w p' ->
              p' ∉ promises_of (delete i (inflight w))) as Hdel.
    { intros p' (Hi' & _)%Hdead Hd. by apply Hi', (promises_of_delete _ i). }
    destruct cb as [id p|p]; simpl in Hin, Hout, Hnoq, Hlt.
    + unfold call_sent. destruct (truthy error); simpl; rewrite app_nil_r.
      * split; [apply NoDup_singleton|]. split.
        -- intros p' ->%list_elem_of_singleton. split; [by left|].
           unfold live. simpl.
           intros [?|[[k ?]|?]]; [done|by apply (Hnoq k)|lia].
        -- intros p' Hp'. pose proof (Hdead p' Hp') as (Hi' & Hk & Hlt').
           unfold live. simpl.
           intros [?|[[k ?]|?]]; [by apply (Hdel p')|by apply (Hk k)|lia].
      * split; [constructor|]. split; [by intros p' ?%elem_of_nil|].
        intros p' Hp'. pose proof (Hdead p' Hp') as (Hi' & Hk & Hlt').
        unfold live. simpl.
        intros [?|[[k Hk']|?]]; [by apply (Hdel p')| |lia].
        destruct (decide (pretty id = k)) as [<-|Hne].
        -- rewrite lookup_insert_eq in Hk'. injection Hk' as <-. done.
        -- rewrite lookup_insert_ne in Hk' by done. by apply (Hk k).
    + unfold notify_sent. destruct (truthy error); simpl; rewrite app_nil_r.
      * split; [apply NoDup_singleton|]. split.
        -- intros p' ->%list_elem_of_singleton. split; [by left|].
           unfold live. simpl.
           intros [?|[[k ?]|?]]; [done|by apply (Hnoq k)|lia].
        -- intros p' Hp'. pose proof (Hdead p' Hp') as (Hi' & Hk & Hlt').
           unfold live. simpl.
           intros [?|[[k ?]|?]]; [by apply (Hdel p')|by apply (Hk k)|lia].
      * split; [apply NoDup_singleton|]. split.
        -- intros p' ->%list_elem_of_singleton. split; [by left|].
           unfold live. simpl.
           intros [?|[[k ?]|?]]; [done|by apply (Hnoq k)|lia].
        -- intros p' Hp'. pose proof (Hdead p' Hp') as (Hi' & Hk & Hlt').
           unfold live. simpl.
           intros [?|[[k ?]|?]]; [by apply (Hdel p')|by apply (Hk k)|lia].
  - (* timeout *)
    destruct (timers w); simpl;
      (split; [constructor|]); (split; [by intros p ?%elem_of_nil|]);
      unfold live; simpl; by rewrite ?app_nil_r.
  - (* listen *)
    simpl. split; [constructor|]. split; [by intros p ?%elem_of_nil|].
    unfold live; simpl; by rewrite ?app_nil_r.
Qed.

(** A promise that is not live is never settled. *)
Lemma dead_never_settled (ins : list input) : forall (w : world) (p : promise),
  consistent w -> ¬ live w p -> p ∉ settled (run w ins).2.
Proof.
  induction ins as [|i ins IH]; intros w p Hw Hp; [by intros ?%elem_of_nil|].
  rewrite run_cons. cbn [snd]. rewrite settled_app.
  destruct (step_settles w i Hw) as (_ & Hnow & Hlater).
  intros [Hin|Hin]%elem_of_app.
  - by destruct (Hnow p Hin).
  - by apply (IH (step w i).1 p); [apply step_consistent|apply Hlater|].
Qed.

(** Along any run, no promise is settled twice. *)
Lemma run_settles_once (ins : list input) : forall w : world,
  consistent w -> NoDup (settled (run w ins).2).
Proof.
  induction ins as [|i ins IH]; intros w Hw; [constructor|].
  rewrite run_cons. cbn [snd]. rewrite settled_app.
  destruct (step_settles w i Hw) as (Hnodup & Hnow & _).
  apply NoDup_app. split; [done|]. split.
  - intros p Hin. destruct (Hnow p Hin) as [_ Hdead].
    by apply dead_never_settled; [apply step_consistent|].
  - by apply IH, step_consistent.
Qed.

End Once.

Section Settling.
Context {host : Host}.

Lemma consistent_keyed (w : world) : consistent w -> keyed_by_ids (client w).
Proof. by intros [(Hn & Hkeys & _) _]. Qed.

(** C5, amended: a pending call is settled once. A message that goes to the
    queue (its [notification] is missing, or a string without listeners) and
    whose id is that of a pending call calls exactly one of the two callbacks
    kept for it, [reject] with the error when that is truthy and [resolve]
    with the result otherwise, and the entry becomes [null]; a later message
    with that id, and a message whose id is a number that is not in the
    queue, do nothing: no callback is called and nothing is thrown. Along
    any run of the loop no promise is settled twice. *)
Theorem pending_call_settled_once (w : world) :
  consistent w ->
  let c := client w in
  (forall (message : value) (n : Z) (p : promise),
     unheard c message ->
     named message ->
     get message "id" = Some (VNum n) ->
     queue c !! pretty n = Some (Callbacks p) ->
     let o := dispatch c message in
     let error := default VUndef (get message "error") in
     effects o = [if truthy error then reject p error
                  else resolve p (default VUndef (get message "result"))]
     ∧ completed o = Returned
     ∧ after o = set_queue c (<[pretty n := Tombstone]> (queue c))
     ∧ (forall message' : value,
          unheard c message' ->
          named message' ->
          get message' "id" = Some (VNum n) ->
          dispatch (after o) message' = returned (after o) []))
  ∧ (forall (message : value) (n : Z),
       unheard c message ->
       named message ->
       get message "id" = Some (VNum n) ->
       queue c !! pretty n = None ∨ queue c !! pretty n = Some Tombstone ->
       dispatch c message = returned c [])
  ∧ (forall ins : list input, NoDup (settled (run w ins).2)).
Proof.
  intros Hw c.
  assert (forall (c' : Client) (message : value) (n : Z),
            events c' = events c ->
            unheard c message -> named message ->
            get message "id" = Some (VNum n) ->
            dispatch c' message =
              match queue_get (queue c') (pretty n) with
              | Undefined | Null => returned c' []
              | Inherited => threw c' [] TypeError
              | Pending p =>
                  let error := default VUndef (get message "error") in
                  returned (set_queue c' (<[pretty n := Tombstone]> (queue c')))
                    [if truthy error then reject p error
                     else resolve p (default VUndef (get message "result"))]
              end) as Hqueue.
  { intros c' message n He (name & Hn & Hf) Hnamed Hid.
    destruct (named_keyed message Hnamed) as (name' & Hn' & Hk).
    assert (name' = name) as -> by congruence.
    rewrite (dispatch_response c' message name Hn Hk)
      by (unfold listeners in *; by rewrite He).
    by rewrite Hid. }
  split; [|split].
  - intros message n p Hu Hnamed Hid Hq o error.
    assert (o = returned (set_queue c (<[pretty n := Tombstone]> (queue c)))
                  [if truthy error then reject p error
                   else resolve p (default VUndef (get message "result"))])
      as Ho.
    { unfold o. rewrite (Hqueue c message n eq_refl Hu Hnamed Hid).
      unfold queue_get. by rewrite Hq. }
    rewrite Ho. cbn [after effects completed returned].
    do 3 (split; [done|]).
    intros message' Hu' Hnamed' Hid'.
    rewrite (Hqueue (set_queue c (<[pretty n := Tombstone]> (queue c)))
                    message' n eq_refl Hu' Hnamed' Hid').
    unfold queue_get. cbn [queue set_queue]. by rewrite lookup_insert_eq.
  - intros message n Hu Hnamed Hid Hq.
    rewrite (Hqueue c message n eq_refl Hu Hnamed Hid), queue_get_number.
    by destruct Hq as [-> | ->].
  - intros ins. by apply run_settles_once.
Qed.

End Settling.

(** *** The properties on the example worlds *)

Lemma started_consistent : consistent started.
Proof. apply boot_consistent. Qed.

Lemma calling_consistent : consistent calling.
Proof. apply (run_consistent (host := node)), started_consistent. Qed.

Lemma three_pending_consistent : consistent three_pending.
Proof. apply (run_consistent (host := node)), started_consistent. Qed.

Example three_calls_allocate_1_2_3 :
  allocated (run (host := node) started
               [ Open; Call "a" VUndef; Closed 1006 VUndef; Timeout; Open;
                 Call "b" VUndef; Call "c" VUndef ]).2
  = [1; 2; 3].
Proof. reflexivity. Qed.

Lemma max_reconnects_2_retries_once_witness :
  sockets (client capped) ≠ 0%nat
  ∧ reconnect (client capped) = true
  ∧ max_reconnects (client capped) = 2
  ∧ current_reconnects (client capped) = 0
  ∧ armed (run (host := node) capped
             [ Closed 1006 VUndef; Timeout; Closed 1006 VUndef; Timeout;
               Closed 1006 VUndef ]).2 = 1%nat
  ∧ (length (opened (run (host := node) capped
               [ Closed 1006 VUndef; Timeout; Closed 1006 VUndef; Timeout;
                 Closed 1006 VUndef ]).2) <= 1)%nat.
Proof.
  split; [discriminate|]. do 3 (split; [reflexivity|]).
  apply (max_reconnects_2_retries_once (host := node) capped);
    [discriminate|reflexivity|reflexivity|reflexivity|reflexivity|reflexivity|
     vm_compute; lia].
Defined.



Lemma ids_increase_and_match_witness :
  0 <= rpc_id (client three_pending)
  ∧ (run (host := node) three_pending
         (map (fun d => Message (payload d)) out_of_order)).2
    = [ resolve 2%nat (VStr "three"); resolve 0%nat (VStr "one");
        resolve 1%nat (VStr "two") ].
Proof.
  assert (0 <= rpc_id (client three_pending)) as Hn by (vm_compute; discriminate).
  split; [exact Hn|].
  destruct (ids_increase_and_match (host := node) three_pending Hn)
    as (_ & _ & Hmatch).
  apply (Hmatch out_of_order).
  - discriminate.
  - apply (bool_decide_unpack _). reflexivity.
  - intros d Hd. unfold out_of_order in Hd.
    repeat (apply elem_of_cons in Hd as [->|Hd]; [by repeat split|]).
    by apply elem_of_nil in Hd.
Defined.

Lemma pending_call_settled_once_witness :
  consistent three_pending
  ∧ effects (dispatch (host := node) (client three_pending)
                      (response 2 (VStr "two")))
    = [resolve 1%nat (VStr "two")].
Proof.
  split; [exact three_pending_consistent|].
  destruct (pending_call_settled_once (host := node) three_pending
              three_pending_consistent) as (Hfirst & _ & _).
  apply (Hfirst (response 2 (VStr "two")) 2 1%nat);
    [by exists VUndef|by left|reflexivity|reflexivity].
Defined.

(** C5 as stated fails on two messages. A response that has an [error]
    member which is not truthy, here 0, does not call [reject]: the call is
    resolved, with the [result] that the message lacks. And a message whose
    id is not in the queue is not always a silent no-op: with the id
    ["constructor"] the handler throws a TypeError. *)
Lemma falsy_error_resolves_unknown_id_throws :
  queue awaiting !! pretty 1 = Some (Callbacks 0%nat)
  ∧ get error_0 "error" = Some (VNum 0)
  ∧ dispatch (host := node) awaiting error_0
    = returned (set_queue awaiting (<["1" := Tombstone]> (queue awaiting)))
               [resolve 0%nat VUndef]
  ∧ queue awaiting !! "constructor" = None
  ∧ dispatch (host := node) awaiting constructor_id
    = threw awaiting [] TypeError.
Proof. repeat split. Qed.

(** ** Further properties of the client *)

(** *** Construction, readiness and closing *)

Section Readiness.
Context {host : Host}.

Lemma step_dormant (w : world) (i : input) :
  dormant w -> dormant (step w i).1 ∧ Forall refusal (step w i).2.
Proof.
  destruct w as [c a o cbs t ps]. unfold dormant. simpl.
  intros (Hs & Hr & -> & ->). unfold step. simpl.
  destruct i as [m params|m params|code data| |data|error|code message|i error| |evs];
    rewrite ?Hs; simpl; try (split; [done|constructor]).
  - unfold call. rewrite Hr. simpl.
    split; [done|]. constructor; [by eexists|constructor].
  - unfold notify. rewrite Hr. simpl.
    split; [done|]. constructor; [by eexists|constructor].
  - unfold close. rewrite Hs. simpl. split; [done|constructor].
Qed.

Lemma run_dormant (ins : list input) : forall w : world,
  dormant w -> dormant (run w ins).1 ∧ Forall refusal (run w ins).2.
Proof.
  induction ins as [|i ins IH]; intros w Hw; [by split; [|constructor]|].
  rewrite run_cons. cbn [fst snd].
  destruct (step_dormant w i Hw) as [Hw' Hes].
  destruct (IH _ Hw') as [Hw'' Hes'].
  split; [done|]. by apply Forall_app.
Qed.

(** X1: a client made with [autoconnect: false] never connects. Whatever
    the application and the loop do afterwards, it has no socket and is not
    ready, no timer is set, and all it ever does is reject the promises of
    [call] and [notify] with "socket not ready"; [close] finds
    [this.socket] undefined and throws a TypeError. *)
Theorem autoconnect_false_never_connects (address : string) (options : value)
    (reconnect : bool) (reconnect_interval max_reconnects : Z)
    (ins : list input) :
  let w0 := (boot address options false reconnect reconnect_interval
                  max_reconnects).1 in
  let w := (run w0 ins).1 in
  (boot address options false reconnect reconnect_interval max_reconnects).2 = []
  ∧ sockets (client w) = 0%nat
  ∧ ready (client w) = false
  ∧ timers w = 0%nat
  ∧ Forall refusal (run w0 ins).2
  ∧ (forall code data : value,
       close (client w) code data = threw (client w) [] TypeError).
Proof.
  intros w0 w.
  assert (dormant w0) as Hw0 by done.
  destruct (run_dormant ins w0 Hw0) as [(Hs & Hr & Ht & Hi) Hes].
  fold w in Hs, Hr, Ht. do 5 (split; [done|]).
  intros code data. unfold close. by rewrite Hs.
Qed.

(** X2: [close(code, data)] asks the socket to close, with code 1000 when
    [code] is missing or 0, and changes nothing in the client: [ready] stays
    as it is until the socket reports the closure, so a call made in between
    is still handed to the socket. *)
Theorem close_leaves_client_ready (w : world) (code data : value) :
  sockets (client w) ≠ 0%nat ->
  step w (Close code data)
  = (w, [socket_close (if truthy code then code else VNum 1000) data])
  ∧ (ready (client w) = true ->
     forall (method : string) (params : value),
       (run w [Close code data; Call method params]).2
       = [ socket_close (if truthy code then code else VNum 1000) data;
           socket_send
             (JSON_stringify (request method params (rpc_id (client w) + 1)))
             (CallSent (rpc_id (client w) + 1) (promises w)) ]).
Proof.
  intros Hs.
  assert (step w (Close code data)
          = (w, [socket_close (if truthy code then code else VNum 1000) data]))
    as Hstep.
  { unfold step, close. rewrite (proj2 (Nat.eqb_neq _ 0) Hs).
    unfold settle. simpl. by rewrite settle_quiet. }
  split; [done|]. intros Hr method params.
  rewrite run_cons, Hstep. cbn [fst snd run].
  unfold step, call. rewrite Hr. simpl.
  by rewrite (proj2 (Nat.eqb_neq _ 0) Hs).
Qed.

Lemma step_not_ready (w : world) (i : input) :
  ready (client w) = false ->
  not_open i = true ->
  ready (client (step w i).1) = false
  ∧ rpc_id (client (step w i).1) = rpc_id (client w)
  ∧ handed (step w i).2 = [].
Proof.
  intros Hr Hi. unfold step.
  destruct i as [m ps|m ps|code data| |data|error|code message|i error| |evs];
    try discriminate Hi.
  - unfold call. by rewrite Hr.
  - unfold notify. by rewrite Hr.
  - unfold close. by destruct (sockets (client w) =? 0)%nat.
  - destruct (sockets (client w) =? 0)%nat; simpl; [done|].
    destruct (on_message_cases (client w) data)
      as [[-> [->| (name & args & ->)]]|(k & p & message & Hk & -> & ->)];
      rewrite ?handed_emit, ?handed_settlement; done.
  - destruct (sockets (client w) =? 0)%nat; simpl; [done|].
    unfold on_error. destruct (listeners _ _); simpl;
      by rewrite ?handed_emit.
  - destruct (sockets (client w) =? 0)%nat; simpl; [done|].
    rewrite handed_on_close. unfold on_close. by repeat case_match.
  - destruct (inflight w !! i) as [[id p|p]|]; simpl; [| |done].
    + unfold call_sent. by destruct (truthy error).
    + unfold notify_sent. by destruct (truthy error).
  - by destruct (timers w).
  - done.
Qed.

(** X3: from a closure to the next opening the client sends nothing. While
    it is not ready, and until the socket emits "open", no turn of the loop
    hands anything to the socket, makes the client ready or moves [rpc_id]:
    the calls rejected in between consume no id. *)
Theorem nothing_sent_until_open (ins : list input) : forall w : world,
  ready (client w) = false ->
  forallb not_open ins = true ->
  ready (client (run w ins).1) = false
  ∧ rpc_id (client (run w ins).1) = rpc_id (client w)
  ∧ handed (run w ins).2 = [].
Proof.
  induction ins as [|i ins IH]; intros w Hr Hall; [done|].
  simpl in Hall. apply andb_prop in Hall as [Hi Hall].
  destruct (step_not_ready w i Hr Hi) as (Hr' & Hn & Hh).
  rewrite run_cons. cbn [fst snd].
  destruct (IH _ Hr' Hall) as (Hr'' & Hn' & Hh').
  by rewrite handed_app, Hh, Hh', Hr'', Hn', Hn.
Qed.

(** X4: an error of the socket is passed on and nothing else. The handler
    calls the listeners of "error" with the error, an Error object, or
    throws it when there is none; the client is left as it was, still ready if it was, so a call
    made after the error is sent as before. *)
Theorem error_event_changes_nothing (w : world) (error : value)
    (text : string) :
  sockets (client w) ≠ 0%nat ->
  error = Error text ->
  let c := client w in
  after (on_error c error) = c
  ∧ (listeners c (VStr "error") = [] ->
     on_error c error = threw c [] error)
  ∧ (listeners c (VStr "error") ≠ [] ->
     on_error c error
     = returned c (map (fun l => listener_call l [error])
                       (listeners c (VStr "error"))))
  ∧ client (step w (Failure error)).1 = c
  ∧ (ready c = true ->
     forall (method : string) (params : value),
       handed (run w [Failure error; Call method params]).2
       = [CallSent (rpc_id c + 1) (promises w)]).
Proof.
  intros Hs _ c. subst c.
  assert (after (on_error (client w) error) = client w) as Hafter.
  { unfold on_error. by destruct (listeners _ _). }
  assert (handed (effects (on_error (client w) error)) = []) as Hh.
  { unfold on_error. destruct (listeners _ _) eqn:Hl; simpl; [done|].
    apply handed_emit. }
  assert (step w (Failure error)
          = ({| client := client w; address := address w; options := options w;
                inflight := inflight w;
                timers := (timers w
                           + armed (effects (on_error (client w) error)))%nat;
                promises := promises w |},
             effects (on_error (client w) error))) as Hstep.
  { unfold step. rewrite (proj2 (Nat.eqb_neq _ 0) Hs). simpl.
    unfold settle. by rewrite Hafter, Hh, app_nil_r. }
  split; [done|]. split.
  { intros Hl. unfold on_error. by rewrite Hl. }
  split.
  { intros Hl. unfold on_error, emit.
    by destruct (listeners (client w) (VStr "error")). }
  split; [by rewrite Hstep|].
  intros Hr method params. rewrite run_cons, Hstep. cbn [fst snd run].
  rewrite handed_app, Hh. unfold step, call. simpl. rewrite Hr. simpl.
  by rewrite (proj2 (Nat.eqb_neq _ 0) Hs).
Qed.

End Readiness.

(** *** Pending calls and the queue over time *)

Section Pending.
Context {host : Host}.

(** X5: the promise of [notify] is settled by the callback of the send and
    by nothing else. [notify] allocates no id and writes no entry; when the
    socket calls the callback, the promise is resolved with [undefined], or
    rejected with the error of the socket, the client is untouched, and no
    later turn of the loop settles that promise again. *)
Theorem notify_settled_by_send_callback (w : world) :
  consistent w ->
  (ready (client w) = true ->
   forall (method : string) (params : value),
     (step w (Notify method params)).2
     = [socket_send (JSON_stringify (notification method params))
                    (NotifySent (promises w))]
     ∧ client (step w (Notify method params)).1 = client w)
  ∧ (forall (i : nat) (p : promise) (error : value),
       inflight w !! i = Some (NotifySent p) ->
       (step w (Sent i error)).2
       = [if truthy error then reject p error else resolve p VUndef]
       ∧ client (step w (Sent i error)).1 = client w
       ∧ forall ins : list input,
           p ∉ settled (run (step w (Sent i error)).1 ins).2).
Proof.
  intros Hw. split.
  - intros Hr method params. destruct Hw as [_ Hready].
    unfold step, notify. rewrite Hr. simpl.
    by rewrite (proj2 (Nat.eqb_neq _ 0) (Hready Hr)).
  - intros i p error Hi.
    assert ((step w (Sent i error)).2
            = [if truthy error then reject p error else resolve p VUndef])
      as Heff.
    { unfold step, notify_sent. rewrite Hi. by destruct (truthy error). }
    split; [done|]. split.
    { unfold step, notify_sent. rewrite Hi. by destruct (truthy error). }
    intros ins. apply dead_never_settled; [by apply step_consistent|].
    destruct (step_settles w (Sent i error) Hw) as (_ & Hnow & _).
    apply (Hnow p). rewrite Heff. destruct (truthy error); by left.
Qed.

(** X6: a response that overtakes the callback of the send is lost. While
    the socket still holds the callback of a request, a response with its id
    finds no entry: the handler does nothing and the world is unchanged. The
    callback then writes the entry, and the call is pending with its response
    already gone. *)
Theorem early_response_is_lost (w : world) (i : nat) (id : Z) (p : promise)
    (data : string) (message : value) :
  consistent w ->
  sockets (client w) ≠ 0%nat ->
  inflight w !! i = Some (CallSent id p) ->
  JSON_parse data = Some message ->
  unheard (client w) message ->
  get message "id" = Some (VNum id) ->
  step w (Message data) = (w, [])
  ∧ (run w [Message data; Sent i VUndef]).2 = []
  ∧ queue (client (run w [Message data; Sent i VUndef]).1) !! pretty id
    = Some (Callbacks p).
Proof.
  intros [Hreg _] Hs Hi Hparse (name & Hn & Hf) Hid.
  destruct Hreg as (_ & _ & Hfly & _).
  assert (id ∈ call_ids (inflight w)) as Hin.
  { unfold call_ids. apply list_elem_of_omap. exists (CallSent id p).
    split; [by eapply list_elem_of_lookup_2|done]. }
  destruct (Hfly id Hin) as [_ Hnone].
  assert (dispatch (client w) message = returned (client w) []
          ∨ dispatch (client w) message = threw (client w) [] TypeError)
    as Hd.
  { destruct (truthy name && negb (keyed name)) eqn:Hk;
      [right; by apply (dispatch_no_key _ _ name)|].
    left. rewrite (dispatch_response (client w) message name Hn Hk Hf), Hid.
    simpl. by rewrite queue_get_number, Hnone. }
  assert (step w (Message data) = (w, [])) as Hstep.
  { unfold step. rewrite (proj2 (Nat.eqb_neq _ 0) Hs). simpl.
    unfold on_message. rewrite Hparse.
    destruct Hd as [-> | ->]; unfold settle; simpl; by rewrite settle_quiet. }
  split; [done|]. rewrite run_cons, Hstep. cbn [fst snd run].
  unfold step, call_sent. rewrite Hi. simpl.
  split; [done|]. apply lookup_insert_eq.
Qed.

(** The events of the connection leave the queue alone and settle no
    promise; a client with a socket keeps one. *)
Lemma step_connection_event (w : world) (i : input) :
  sockets (client w) ≠ 0%nat ->
  connection_event i = true ->
  queue (client (step w i).1) = queue (client w)
  ∧ sockets (client (step w i).1) ≠ 0%nat
  ∧ settled (step w i).2 = [].
Proof.
  intros Hs Hi. unfold step.
  destruct i as [m ps|m ps|code data| |data|error|code message|i error| |evs];
    try discriminate Hi; rewrite ?(proj2 (Nat.eqb_neq _ 0) Hs); simpl.
  - by rewrite (settled_emit (set_ready (client w) true)).
  - unfold on_error. destruct (listeners _ _); simpl;
      by rewrite ?settled_emit.
  - rewrite settled_on_close. unfold on_close. by repeat case_match.
  - destruct (timers w); simpl; [done|]. split; [done|]. split; [lia|done].
Qed.

(** X7: pending calls outlive the connection. Closures of the socket, with
    any code, errors, reconnections and openings settle no promise and leave
    the queue as it is; a response that arrives afterwards, on whichever
    socket, settles the call that was pending under its id. *)
Theorem pending_calls_survive_reconnection (ins : list input) :
  forall (w : world) (id : Z) (p : promise) (data : string) (message : value),
  sockets (client w) ≠ 0%nat ->
  forallb connection_event ins = true ->
  queue (client w) !! pretty id = Some (Callbacks p) ->
  JSON_parse data = Some message ->
  get message "notification" = Some VUndef ->
  get message "id" = Some (VNum id) ->
  settled (run w ins).2 = []
  ∧ queue (client (run w ins).1) = queue (client w)
  ∧ (run w (ins ++ [Message data])).2
    = (run w ins).2 ++ [settlement message p].
Proof.
  induction ins as [|i ins IH];
    intros w id p data message Hs Hall Hq Hparse Hn Hid.
  - split; [done|]. split; [done|].
    rewrite app_nil_l, run_cons. cbn [fst snd run]. rewrite app_nil_r.
    unfold step. rewrite (proj2 (Nat.eqb_neq _ 0) Hs). simpl.
    unfold on_message. rewrite Hparse.
    rewrite (dispatch_response (client w) message VUndef) by done.
    rewrite Hid. simpl. unfold queue_get. by rewrite Hq.
  - simpl in Hall. apply andb_prop in Hall as [Hi Hall].
    destruct (step_connection_event w i Hs Hi) as (Hq' & Hs' & Hset).
    rewrite <- app_comm_cons, !run_cons. cbn [fst snd].
    destruct (IH (step w i).1 id p data message Hs' Hall) as (IH1 & IH2 & IH3);
      [by rewrite Hq'|done..|].
    rewrite settled_app, Hset, IH1, IH2, IH3, Hq'.
    by rewrite app_assoc.
Qed.

Lemma step_keeps_entries (w : world) (i : input) (k : string) :
  (is_Some (queue (client w) !! k) ->
   is_Some (queue (client (step w i).1) !! k))
  ∧ (consistent w ->
     queue (client w) !! k = Some Tombstone ->
     queue (client (step w i).1) !! k = Some Tombstone).
Proof.
  unfold step.
  destruct i as [m ps|m ps|code data| |data|error|code message|i error| |evs].
  - unfold call. destruct (ready (client w)); simpl; [|done].
    by destruct (sockets (client w) =? 0)%nat.
  - unfold notify. destruct (ready (client w)); simpl; [|done].
    by destruct (sockets (client w) =? 0)%nat.
  - unfold close. by destruct (sockets (client w) =? 0)%nat.
  - by destruct (sockets (client w) =? 0)%nat.
  - destruct (sockets (client w) =? 0)%nat; simpl; [done|].
    destruct (on_message_cases (client w) data)
      as [[-> _]|(k' & p & message & Hk & -> & _)]; [done|]. simpl.
    destruct (decide (k' = k)) as [->|Hne].
    + rewrite lookup_insert_eq. by split.
    + by rewrite lookup_insert_ne.
  - destruct (sockets (client w) =? 0)%nat; simpl; [done|].
    unfold on_error. by destruct (listeners _ _).
  - destruct (sockets (client w) =? 0)%nat; simpl; [done|].
    unfold on_close. by repeat case_match.
  - destruct (inflight w !! i) as [[id p|p]|] eqn:Hi; simpl; [| |done].
    + unfold call_sent. destruct (truthy error); simpl; [done|].
      destruct (decide (pretty id = k)) as [<-|Hne].
      * rewrite lookup_insert_eq. split; [done|].
        intros [Hreg _] Hk. destruct Hreg as (_ & _ & Hfly & _).
        destruct (Hfly id) as [_ Hnone]; [|by rewrite Hnone in Hk].
        unfold call_ids. apply list_elem_of_omap. exists (CallSent id p).
        split; [by eapply list_elem_of_lookup_2|done].
      * by rewrite lookup_insert_ne.
    + unfold notify_sent. by destruct (truthy error).
  - by destruct (timers w).
  - done.
Qed.

(** X8: the queue never forgets. Along any run, an entry of the queue is
    never removed, and the entry of an answered call stays [null]: once
    answered, an id is never pending again, and the queue keeps one entry
    for every call the socket has confirmed, for the life of the client. *)
Theorem answered_calls_stay_answered (ins : list input) :
  forall (w : world) (k : string),
  consistent w ->
  (is_Some (queue (client w) !! k) ->
   is_Some (queue (client (run w ins).1) !! k))
  ∧ (queue (client w) !! k = Some Tombstone ->
     queue (client (run w ins).1) !! k = Some Tombstone).
Proof.
  induction ins as [|i ins IH]; intros w k Hw; [done|].
  rewrite run_cons. cbn [fst].
  destruct (step_keeps_entries w i k) as [Hsome Htomb].
  destruct (IH (step w i).1 k (step_consistent w i Hw)) as [IH1 IH2].
  split; [by intros ?%Hsome%IH1|]. intros Hk. by apply IH2, Htomb.
Qed.

(** X9: an opening restores the whole budget of retries. Whatever
    [current_reconnects] was, after the socket has opened a run of failures
    is retried [max_reconnects - 1] times again: the cap bounds the
    consecutive failures, not the reconnections of the client. *)
Theorem open_restores_retries (w : world) (ins : list input) :
  sockets (client w) ≠ 0%nat ->
  reconnect (client w) = true ->
  max_reconnects (client w) ≠ 0 ->
  forallb failing ins = true ->
  armed (run w (Open :: ins)).2
  = (closures ins `min` Z.to_nat (max_reconnects (client w) - 1))%nat.
Proof.
  intros Hs Hr Hm Hall. rewrite run_cons. cbn [fst snd]. rewrite armed_app.
  destruct (step_open w Hs) as (Ha & Hc & Hr' & Hm' & Hs').
  rewrite Ha, capped_retries; rewrite ?Hc, ?Hr', ?Hm', ?Hs'; try done.
  by rewrite Z.sub_0_r.
Qed.

End Pending.

(** *** Events with parameters that are not arrays *)

Section Parameters.
Context {host : Host}.

Lemma chars_length (s : string) : length (chars s) = String.length s.
Proof. induction s as [|a s IH]; [done|]. simpl. by rewrite IH. Qed.

Lemma index_chars (s : string) :
  map (index (VStr s)) (seq 0 (String.length s)) = chars s.
Proof.
  rewrite <- chars_length. apply list_eq. intros i. rewrite list_lookup_fmap.
  destruct (decide (i < length (chars s))%nat) as [Hlt|Hge].
  - rewrite lookup_seq_lt by done. simpl.
    destruct (lookup_lt_is_Some_2 (chars s) i Hlt) as [x Hx]. by rewrite Hx.
  - rewrite lookup_seq_ge by lia. simpl.
    symmetry. apply lookup_ge_None. lia.
Qed.

(** X10: parameters given as a string are spread by character. For a
    notification with listeners whose [params] is a string, each listener is
    called with one argument per character of the string, and with no
    argument for the empty string. *)
Theorem string_params_spread (c : Client) (message : value)
    (event s : string) :
  let name := VStr event in
  get message "notification" = Some name ->
  event ≠ "" ->
  listeners c name ≠ [] ->
  get message "params" = Some (VStr s) ->
  dispatch c message
  = returned c (map (fun l => listener_call l (chars s)) (listeners c name)).
Proof.
  intros name Hn Ht%named_truthy Hl Hp. fold name in Ht. unfold dispatch. rewrite Hn, Ht, Hp. simpl.
  destruct (listeners c name) as [|l ls] eqn:Hls; [done|]. simpl.
  destruct s as [|a s]; [by unfold emit; rewrite Hls|].
  replace (negb (Z.of_nat (String.length (String a s)) =? 0)) with true
    by (symmetry; apply negb_true_iff, Z.eqb_neq; simpl; lia).
  cbn [negb]. rewrite Nat2Z.id, (index_chars (String a s)).
  unfold emit. by rewrite Hls.
Qed.

(** X11: parameters given as an object are read like an array. When the
    object has a numeric [length], the listeners get the members "0", "1",
    ... below it, [undefined] for those that are missing; when it has no
    [length], as parameters by name have none, the listeners are called
    without arguments and the parameters are dropped. *)
Theorem object_params_read_by_length (c : Client) (message : value)
    (event : string) (members : list (string * value)) :
  let name := VStr event in
  get message "notification" = Some name ->
  event ≠ "" ->
  listeners c name ≠ [] ->
  get message "params" = Some (VObj members) ->
  (forall n : Z,
     own members "length" = Some (VNum n) ->
     dispatch c message
     = returned c
         (map (fun l => listener_call l
                 (map (fun i => default VUndef
                                  (own members (pretty (Z.of_nat i))))
                      (seq 0 (Z.to_nat n))))
              (listeners c name)))
  ∧ (own members "length" = None ->
     dispatch c message
     = returned c (map (fun l => listener_call l []) (listeners c name))).
Proof.
  intros name Hn Ht%named_truthy Hl Hp. fold name in Ht.
  assert (truthy name && negb (length (listeners c name) =? 0)%nat = true)
    as Hfw.
  { rewrite Ht. destruct (listeners c name); [done|reflexivity]. }
  assert (truthy name && negb (keyed name) = false) as Hk
    by apply andb_false_r.
  split.
  - intros n Hlen. unfold dispatch. rewrite Hn, Hk, Hfw, Hp. simpl.
    rewrite Hlen. simpl.
    destruct (n =? 0) eqn:Hz; simpl; [|done].
    apply Z.eqb_eq in Hz. by subst n.
  - intros Hlen. unfold dispatch. rewrite Hn, Hk, Hfw, Hp. simpl.
    by rewrite Hlen.
Qed.

(** X12: a message forwarded as an event is nothing but an event. Whatever
    else it carries, an [id] of a pending call, a [result] or an [error],
    and whatever its [params], the handler leaves the client and its queue
    untouched, settles no promise and sends nothing. *)
Theorem forwarded_event_settles_nothing (c : Client) (message : value)
    (event : string) :
  let name := VStr event in
  get message "notification" = Some name ->
  event ≠ "" ->
  listeners c name ≠ [] ->
  after (dispatch c message) = c
  ∧ settled (effects (dispatch c message)) = []
  ∧ handed (effects (dispatch c message)) = [].
Proof.
  intros name Hn Ht%named_truthy Hl. fold name in Ht.
  assert (truthy name && negb (length (listeners c name) =? 0)%nat = true)
    as Hfw.
  { rewrite Ht. destruct (listeners c name); [done|reflexivity]. }
  assert (truthy name && negb (keyed name) = false) as Hk
    by apply andb_false_r.
  unfold dispatch. rewrite Hn, Hk, Hfw.
  destruct (get message "params" ≫= _) as [len|]; [|done].
  destruct (negb (truthy len)); simpl;
    [by rewrite settled_emit, handed_emit|].
  destruct (negb (keyed len)); simpl; [done|].
  destruct (rounds len); simpl; [|done].
  by rewrite settled_emit, handed_emit.
Qed.

End Parameters.

(** *** Subscriptions *)

Section Awaiting.
Context {host : Host} {engine : Prototypes}.

Lemma perform_cons (s : session) (a : action) (rest : list action) :
  perform s (a :: rest) =
    ((perform (act s a).1 rest).1, (act s a).2 ++ (perform (act s a).1 rest).2).
Proof.
  simpl. destruct (act s a) as [s1 es1]. simpl.
  by destruct (perform s1 rest) as [s2 es2].
Qed.

(** An async function that has sent its call: the session after
    [subscribe] or [unsubscribe] on a ready client. *)
Lemma act_subscribe (s : session) (event : string) :
  ready (client (loop s)) = true ->
  sockets (client (loop s)) ≠ 0%nat ->
  let w := loop s in
  let p := S (promises w) in
  let id := rpc_id (client w) + 1 in
  act s (Subscribe event)
  = ({| loop := {| client := set_rpc_id (client w) id;
                   address := address w; options := options w;
                   inflight := inflight w ++ [CallSent id p];
                   timers := (timers w + 0)%nat;
                   promises := S p |};
        waits := <[p := Subscribing event (promises w)]> (waits s) |},
     [socket_send (JSON_stringify (request "rpc.on" (VArr [VStr event]) id))
                  (CallSent id p)])
  ∧ act s (Unsubscribe event)
    = ({| loop := {| client := set_rpc_id (client w) id;
                     address := address w; options := options w;
                     inflight := inflight w ++ [CallSent id p];
                     timers := (timers w + 0)%nat;
                     promises := S p |};
          waits := <[p := Unsubscribing event (promises w)]> (waits s) |},
       [socket_send (JSON_stringify (request "rpc.off" (VArr [VStr event]) id))
                    (CallSent id p)]).
Proof.
  intros Hr Hs w p id. unfold act, subscribe, unsubscribe, call. fold w.
  fold w in Hr, Hs. rewrite Hr. simpl.
  by rewrite (proj2 (Nat.eqb_neq _ 0) Hs).
Qed.

(** The socket confirms the request and the response arrives: the call is
    settled and the function that awaits it is resumed. *)
Lemma answered (w : world) (ws : gmap promise suspended) (f : suspended)
    (id : Z) (p : promise) (data : string) (message : value) :
  sockets (client w) ≠ 0%nat ->
  ws !! p = Some f ->
  JSON_parse data = Some message ->
  get message "notification" = Some VUndef ->
  get message "id" = Some (VNum id) ->
  let s := {| loop := {| client := client w; address := address w;
                         options := options w;
                         inflight := inflight w ++ [CallSent id p];
                         timers := timers w; promises := promises w |};
              waits := ws |} in
  (perform s [Do (Sent (length (inflight w)) VUndef); Do (Message data)]).2
  = [ settlement message p;
      resumed f (let error := default VUndef (get message "error") in
                 if truthy error then inr error
                 else inl (default VUndef (get message "result"))) ].
Proof.
  intros Hs Hf Hparse Hn Hid s.
  assert (act s (Do (Sent (length (inflight w)) VUndef))
          = ({| loop := {| client := set_queue (client w)
                                       (<[pretty id := Callbacks p]> (queue (client w)));
                           address := address w; options := options w;
                           inflight := inflight w;
                           timers := timers w; promises := promises w |};
                waits := ws |}, [])) as Hact.
  { unfold s, act, step. cbn [loop inflight].
    rewrite list_lookup_middle by done.
    unfold call_sent, settle, after_turn. simpl.
    by rewrite delete_middle, !app_nil_r, Nat.add_0_r. }
  rewrite perform_cons, Hact. cbn [fst snd app].
  rewrite perform_cons. cbn [perform fst snd]. rewrite app_nil_r.
  unfold act, step. cbn [loop client sockets set_queue waits].
  rewrite (proj2 (Nat.eqb_neq _ 0) Hs). cbn [negb].
  unfold on_message. rewrite Hparse.
  rewrite (dispatch_response
             (set_queue (client w)
                        (<[pretty id := Callbacks p]> (queue (client w))))
             message VUndef Hn eq_refl eq_refl), Hid.
  cbv zeta. change (default VUndef (Some (VNum id))) with (VNum id).
  change (negb (keyed (VNum id))) with false. cbv iota.
  change (to_string (VNum id)) with (pretty id). unfold queue_get.
  cbn [queue set_queue]. rewrite lookup_insert_eq.
  unfold settle, after_turn, settlement. cbn [after effects returned fst snd].
  destruct (truthy (default VUndef (get message "error"))); simpl;
    by rewrite Hf.
Qed.

(** [subscribe] and [unsubscribe] from start to end: the request goes out
    under the next id, the socket confirms it, the response with that id
    arrives; the call is settled by the response and the function is resumed
    with the outcome of the call. *)
Lemma subscription_trace (s : session) (event data : string)
    (message : value) :
  let w := loop s in
  let q := promises w in
  let p := S q in
  let id := rpc_id (client w) + 1 in
  let outcome :=
    let error := default VUndef (get message "error") in
    if truthy error then inr error
    else inl (default VUndef (get message "result")) in
  ready (client w) = true ->
  sockets (client w) ≠ 0%nat ->
  JSON_parse data = Some message ->
  get message "notification" = Some VUndef ->
  get message "id" = Some (VNum id) ->
  (perform s [ Subscribe event; Do (Sent (length (inflight w)) VUndef);
               Do (Message data) ]).2
  = [ socket_send (JSON_stringify (request "rpc.on" (VArr [VStr event]) id))
                  (CallSent id p);
      settlement message p;
      resumed (Subscribing event q) outcome ]
  ∧ (perform s [ Unsubscribe event; Do (Sent (length (inflight w)) VUndef);
                 Do (Message data) ]).2
    = [ socket_send (JSON_stringify (request "rpc.off" (VArr [VStr event]) id))
                    (CallSent id p);
        settlement message p;
        resumed (Unsubscribing event q) outcome ].
Proof.
  intros w q p id outcome Hr Hs Hparse Hunheard Hid.
  destruct (act_subscribe s event Hr Hs) as [Hon Hoff].
  fold w q p id in Hon, Hoff.
  set (w' := {| client := set_rpc_id (client w) id; address := address w;
                options := options w; inflight := inflight w;
                timers := (timers w + 0)%nat; promises := S p |}).
  split.
  - rewrite perform_cons, Hon. cbn [fst snd].
    rewrite (answered w' _ (Subscribing event q) id p data message);
      try done.
    apply lookup_insert_eq.
  - rewrite perform_cons, Hoff. cbn [fst snd].
    rewrite (answered w' _ (Unsubscribing event q) id p data message);
      try done.
    apply lookup_insert_eq.
Qed.

(** X13: [subscribe] and [unsubscribe] succeed on the acknowledgement "ok".
    On a ready client the request "rpc.on" (or "rpc.off") with the argument
    [[event]] is sent under the next id; once the socket has confirmed it and
    the response brings an object whose member [event] is the string "ok",
    the call is resolved with that object and the promise of the function
    with [undefined]. *)
Theorem subscription_acknowledged (s : session) (event data : string)
    (members : list (string * value)) :
  let w := loop s in
  let q := promises w in
  let p := S q in
  let id := rpc_id (client w) + 1 in
  ready (client w) = true ->
  sockets (client w) ≠ 0%nat ->
  JSON_parse data = Some (response id (VObj members)) ->
  own members event = Some (VStr "ok") ->
  (perform s [ Subscribe event; Do (Sent (length (inflight w)) VUndef);
               Do (Message data) ]).2
  = [ socket_send (JSON_stringify (request "rpc.on" (VArr [VStr event]) id))
                  (CallSent id p);
      resolve p (VObj members);
      resolve q VUndef ]
  ∧ (perform s [ Unsubscribe event; Do (Sent (length (inflight w)) VUndef);
                 Do (Message data) ]).2
    = [ socket_send (JSON_stringify (request "rpc.off" (VArr [VStr event]) id))
                    (CallSent id p);
        resolve p (VObj members);
        resolve q VUndef ].
Proof.
  intros w q p id Hr Hs Hparse Hok.
  subst id p q w.
  destruct (subscription_trace s event data
              (response (rpc_id (client (loop s)) + 1) (VObj members))
              Hr Hs Hparse eq_refl eq_refl)
    as [-> ->].
  unfold resumed, subscribed, unsubscribed, member. simpl. by rewrite Hok.
Qed.

(** X14: a refusal is reported differently by the two functions. When the
    member [event] of the result is anything but the string "ok", the
    promise of [subscribe] is rejected with an Error whose message ends with
    that member (a member whose numbers print in decimal), and the promise
    of [unsubscribe] with an Error whose message ends with the result
    itself, which for an object prints as "[object Object]" whatever the
    server reported; the concatenation throws a TypeError instead when the
    object has a member [toString]. *)
Theorem subscription_refused (s : session) (event data : string)
    (members : list (string * value)) (x : value) :
  let w := loop s in
  let q := promises w in
  let p := S q in
  let id := rpc_id (client w) + 1 in
  ready (client w) = true ->
  sockets (client w) ≠ 0%nat ->
  JSON_parse data = Some (response id (VObj members)) ->
  own members event = Some x ->
  not_ok x = true ->
  (decimal x = true ->
   (perform s [ Subscribe event; Do (Sent (length (inflight w)) VUndef);
                Do (Message data) ]).2
   = [ socket_send (JSON_stringify (request "rpc.on" (VArr [VStr event]) id))
                   (CallSent id p);
       resolve p (VObj members);
       reject q (failure "Failed subscribing to an event with: " x) ])
  ∧ (perform s [ Unsubscribe event; Do (Sent (length (inflight w)) VUndef);
                 Do (Message data) ]).2
    = [ socket_send (JSON_stringify (request "rpc.off" (VArr [VStr event]) id))
                    (CallSent id p);
        resolve p (VObj members);
        reject q (failure "Failed unsubscribing from an event with: "
                          (VObj members)) ]
  ∧ failure "Failed unsubscribing from an event with: " (VObj members)
    = match own members "toString" with
      | Some _ => TypeError
      | None =>
          Error "Failed unsubscribing from an event with: [object Object]"
      end.
Proof.
  intros w q p id Hr Hs Hparse Hx Hnot.
  subst id p q w.
  destruct (subscription_trace s event data
              (response (rpc_id (client (loop s)) + 1) (VObj members))
              Hr Hs Hparse eq_refl eq_refl)
    as [-> ->].
  unfold resumed, subscribed, unsubscribed, member. simpl.
  rewrite Hx, Hnot. do 2 (split; [reflexivity|]).
  unfold failure. simpl. by destruct (own members "toString").
Qed.

(** X15: a response without a result makes the function fail with a
    TypeError. When the response to "rpc.on" or "rpc.off" has no [result],
    or a [null] one, the call is resolved with [undefined] or [null], and
    reading [result[event]] throws: the promise of [subscribe] or
    [unsubscribe] is rejected with the TypeError, not with a subscription
    error. *)
Theorem subscription_without_result (s : session) (event data : string)
    (message : value) :
  let w := loop s in
  let q := promises w in
  let p := S q in
  let id := rpc_id (client w) + 1 in
  ready (client w) = true ->
  sockets (client w) ≠ 0%nat ->
  JSON_parse data = Some message ->
  message = VObj [("id", VNum id)] ∨ message = response id VNull ->
  (perform s [ Subscribe event; Do (Sent (length (inflight w)) VUndef);
               Do (Message data) ]).2
  = [ socket_send (JSON_stringify (request "rpc.on" (VArr [VStr event]) id))
                  (CallSent id p);
      resolve p (default VUndef (get message "result"));
      reject q TypeError ]
  ∧ (perform s [ Unsubscribe event; Do (Sent (length (inflight w)) VUndef);
                 Do (Message data) ]).2
    = [ socket_send (JSON_stringify (request "rpc.off" (VArr [VStr event]) id))
                    (CallSent id p);
        resolve p (default VUndef (get message "result"));
        reject q TypeError ].
Proof.
  intros w q p id Hr Hs Hparse Hmessage.
  subst id p q w.
  assert (get message "notification" = Some VUndef) as Hun
    by by destruct Hmessage as [-> | ->].
  assert (get message "id" = Some (VNum (rpc_id (client (loop s)) + 1)))
    as Hid by by destruct Hmessage as [-> | ->].
  destruct (subscription_trace s event data message
              Hr Hs Hparse Hun Hid) as [-> ->].
  by destruct Hmessage as [-> | ->].
Qed.

(** X16: an error of the server reaches the caller untouched. When the
    response carries an [error], the call is rejected with it and so is the
    promise of [subscribe] or [unsubscribe]: the same value, with no
    subscription error around it. *)
Theorem subscription_server_error (s : session) (event data : string)
    (error : value) :
  let w := loop s in
  let q := promises w in
  let p := S q in
  let id := rpc_id (client w) + 1 in
  ready (client w) = true ->
  sockets (client w) ≠ 0%nat ->
  JSON_parse data = Some (error_response id error) ->
  truthy error = true ->
  (perform s [ Subscribe event; Do (Sent (length (inflight w)) VUndef);
               Do (Message data) ]).2
  = [ socket_send (JSON_stringify (request "rpc.on" (VArr [VStr event]) id))
                  (CallSent id p);
      reject p error;
      reject q error ]
  ∧ (perform s [ Unsubscribe event; Do (Sent (length (inflight w)) VUndef);
                 Do (Message data) ]).2
    = [ socket_send (JSON_stringify (request "rpc.off" (VArr [VStr event]) id))
                    (CallSent id p);
        reject p error;
        reject q error ].
Proof.
  intros w q p id Hr Hs Hparse Herr.
  subst id p q w.
  destruct (subscription_trace s event data
              (error_response (rpc_id (client (loop s)) + 1) error)
              Hr Hs Hparse eq_refl eq_refl) as [-> ->].
  unfold resumed, settlement. simpl. by rewrite Herr.
Qed.

(** X17: [subscribe] and [unsubscribe] on a client that is not ready fail
    at once. The call is rejected with "socket not ready", nothing is sent
    and no id is taken, and the promise of the function is rejected with the
    same error in the same turn. *)
Theorem subscription_not_ready (s : session) (event : string) :
  let w := loop s in
  let q := promises w in
  let p := S q in
  ready (client w) = false ->
  (act s (Subscribe event)).2
  = [reject p (Error "socket not ready"); reject q (Error "socket not ready")]
  ∧ (act s (Unsubscribe event)).2
    = [reject p (Error "socket not ready"); reject q (Error "socket not ready")]
  ∧ client (loop (act s (Subscribe event)).1) = client w
  ∧ client (loop (act s (Unsubscribe event)).1) = client w.
Proof.
  intros w q p Hr. unfold act, subscribe, unsubscribe, call. fold w.
  rewrite Hr. unfold settle, after_turn.
  cbn [negb after effects returned fst snd resume settles].
  by rewrite !lookup_insert_eq.
Qed.

(** X18: only an own member "ok" acknowledges. After its call is resolved
    with [result], [subscribe] resolves its promise exactly when
    [result[event]] is an own member equal to the string "ok", and so does
    [unsubscribe]: a member inherited from a prototype, any other value and
    a missing member all reject. *)
Theorem acknowledged_only_by_ok (event : string) (q : promise) (result : value) :
  (subscribed event q result = resolve q VUndef
   <-> member result event = Own (VStr "ok"))
  ∧ (unsubscribed event q result = resolve q VUndef
     <-> member result event = Own (VStr "ok")).
Proof.
  assert (forall x : value, not_ok x = false <-> x = VStr "ok") as Hok.
  { intros x. destruct x as [| |b|n|s'|items|ms|m]; simpl; try by split.
    rewrite negb_false_iff, String.eqb_eq. split; [by intros ->|congruence]. }
  unfold subscribed, unsubscribed.
  destruct (member result event) as [|x|text]; try by split.
  destruct (not_ok x) eqn:Hx.
  - split; (split; [done|]); intros [= Heq]; apply Hok in Heq; congruence.
  - apply Hok in Hx. by subst x.
Qed.

End Awaiting.

(** *** The further properties on the examples *)

Lemma connected_consistent : consistent connected.
Proof. apply (run_consistent (host := node)), started_consistent. Qed.

Lemma notifying_consistent : consistent notifying.
Proof. apply (run_consistent (host := node)), started_consistent. Qed.

Lemma close_leaves_client_ready_witness :
  sockets (client calling) ≠ 0%nat
  ∧ step (host := node) calling (Close VUndef VUndef)
    = (calling, [socket_close (VNum 1000) VUndef]).
Proof.
  split; [discriminate|].
  apply (close_leaves_client_ready (host := node) calling VUndef VUndef).
  discriminate.
Defined.

Lemma nothing_sent_until_open_witness :
  ready (client started) = false
  ∧ handed (run (host := node) started
              [ Call "sum" VUndef; Closed 1006 VUndef; Timeout;
                Notify "log" VUndef ]).2 = [].
Proof.
  split; [reflexivity|].
  apply (nothing_sent_until_open (host := node)
           [ Call "sum" VUndef; Closed 1006 VUndef; Timeout;
             Notify "log" VUndef ] started); reflexivity.
Defined.

Lemma error_event_changes_nothing_witness :
  sockets (client connected) ≠ 0%nat
  ∧ on_error (client connected) (Error "ECONNRESET")
    = threw (client connected) [] (Error "ECONNRESET").
Proof.
  split; [discriminate|].
  destruct (error_event_changes_nothing (host := node) connected
              (Error "ECONNRESET") "ECONNRESET") as (_ & Hthrow & _);
    [discriminate|reflexivity|].
  apply Hthrow. reflexivity.
Defined.

Lemma notify_settled_by_send_callback_witness :
  consistent notifying
  ∧ inflight notifying !! 0%nat = Some (NotifySent 0%nat)
  ∧ (step (host := node) notifying (Sent 0 VUndef)).2 = [resolve 0%nat VUndef].
Proof.
  split; [exact notifying_consistent|]. split; [reflexivity|].
  destruct (notify_settled_by_send_callback (host := node) notifying
              notifying_consistent) as [_ Hsent].
  destruct (Hsent 0%nat 0%nat VUndef eq_refl) as [Heff _]. exact Heff.
Defined.

Lemma early_response_is_lost_witness :
  consistent calling
  ∧ inflight calling !! 0%nat = Some (CallSent 1 0%nat)
  ∧ JSON_parse (Host := node) "result 1" = Some (response 1 (VStr "one"))
  ∧ step (host := node) calling (Message "result 1") = (calling, []).
Proof.
  split; [exact calling_consistent|]. do 2 (split; [reflexivity|]).
  apply (early_response_is_lost (host := node) calling 0%nat 1 0%nat
           "result 1" (response 1 (VStr "one")) calling_consistent);
    [discriminate|reflexivity|reflexivity|by exists VUndef|reflexivity].
Defined.

Lemma pending_calls_survive_reconnection_witness :
  sockets (client three_pending) ≠ 0%nat
  ∧ queue (client three_pending) !! pretty 2 = Some (Callbacks 1%nat)
  ∧ settled (run (host := node) three_pending
               [Closed 1006 VUndef; Timeout; Open]).2 = []
  ∧ (run (host := node) three_pending
         ([Closed 1006 VUndef; Timeout; Open] ++ [Message "result 2"])).2
    = (run (host := node) three_pending
           [Closed 1006 VUndef; Timeout; Open]).2
      ++ [resolve 1%nat (VStr "two")].
Proof.
  split; [discriminate|]. split; [reflexivity|].
  destruct (pending_calls_survive_reconnection (host := node)
              [Closed 1006 VUndef; Timeout; Open] three_pending 2 1%nat
              "result 2" (response 2 (VStr "two")))
    as (Hsettled & _ & Htrace);
    [discriminate|reflexivity|reflexivity|reflexivity|reflexivity|reflexivity|].
  split; [exact Hsettled|exact Htrace].
Defined.

Lemma answered_calls_stay_answered_witness :
  consistent three_pending
  ∧ is_Some (queue (client three_pending) !! "1")
  ∧ is_Some (queue (client (run (host := node) three_pending
                              [Message "result 1"; Closed 1000 VUndef]).1)
             !! "1").
Proof.
  split; [exact three_pending_consistent|].
  assert (is_Some (queue (client three_pending) !! "1")) as Hsome
    by by eexists.
  split; [exact Hsome|].
  apply (answered_calls_stay_answered (host := node)
           [Message "result 1"; Closed 1000 VUndef] three_pending "1"
           three_pending_consistent).
  exact Hsome.
Defined.

Lemma open_restores_retries_witness :
  sockets (client capped) ≠ 0%nat
  ∧ reconnect (client capped) = true
  ∧ max_reconnects (client capped) ≠ 0
  ∧ armed (run (host := node) capped
             [ Open; Closed 1006 VUndef; Timeout; Closed 1006 VUndef ]).2
    = 1%nat.
Proof.
  split; [discriminate|]. split; [reflexivity|]. split; [discriminate|].
  apply (open_restores_retries (host := node) capped
           [Closed 1006 VUndef; Timeout; Closed 1006 VUndef]);
    [discriminate|reflexivity|discriminate|reflexivity].
Defined.

Lemma unlimited_retries_witness :
  sockets (client unlimited) ≠ 0%nat
  ∧ max_reconnects (client unlimited) = 0
  ∧ armed (run (host := node) unlimited
             [ Closed 1006 VUndef; Timeout; Closed 1006 VUndef; Timeout;
               Closed 1006 VUndef ]).2 = 3%nat.
Proof.
  split; [discriminate|]. split; [reflexivity|].
  apply (unlimited_retries (host := node)
           [ Closed 1006 VUndef; Timeout; Closed 1006 VUndef; Timeout;
             Closed 1006 VUndef ] unlimited);
    [discriminate|reflexivity|reflexivity].
Defined.

Lemma reopened_retries_witness :
  sockets (client capped) ≠ 0%nat
  ∧ 1 < max_reconnects (client capped)
  ∧ armed (run (host := node) capped (concat (replicate 3 reopening))).2
    = 3%nat.
Proof.
  split; [discriminate|]. split; [reflexivity|].
  apply (reopened_retries (host := node) 3 capped);
    [discriminate|reflexivity|reflexivity|reflexivity].
Defined.

Lemma string_params_spread_witness :
  get tick_ab "params" = Some (VStr "ab")
  ∧ dispatch (host := node) listening tick_ab
    = returned listening [listener_call 7%nat [VStr "a"; VStr "b"]].
Proof.
  split; [reflexivity|].
  apply (string_params_spread (host := node) listening tick_ab "tick" "ab");
    [reflexivity|discriminate|discriminate|reflexivity].
Defined.

Lemma object_params_read_by_length_witness :
  get tick_array_like "params"
  = Some (VObj [("length", VNum 2); ("0", VStr "a")])
  ∧ dispatch (host := node) listening tick_array_like
    = returned listening [listener_call 7%nat [VStr "a"; VUndef]].
Proof.
  split; [reflexivity|].
  destruct (object_params_read_by_length (host := node) listening
              tick_array_like "tick"
              [("length", VNum 2); ("0", VStr "a")])
    as [Hlen _]; [reflexivity|discriminate|discriminate|reflexivity|].
  apply (Hlen 2). reflexivity.
Defined.

Lemma forwarded_event_settles_nothing_witness :
  listeners awaiting (VStr "tick") ≠ []
  ∧ queue awaiting !! "1" = Some (Callbacks 0%nat)
  ∧ after (dispatch (host := node) awaiting tick_with_id) = awaiting.
Proof.
  split; [discriminate|]. split; [reflexivity|].
  destruct (forwarded_event_settles_nothing (host := node) awaiting
              tick_with_id "tick") as (Hafter & _);
    [reflexivity|discriminate|discriminate|exact Hafter].
Defined.

Lemma inherited_id_throws_witness :
  unheard listening constructor_id
  ∧ to_string (VStr "constructor") ∈ Object_prototype
  ∧ dispatch (host := node) listening constructor_id
    = threw listening [] TypeError.
Proof.
  assert (unheard listening constructor_id) as Hun by by exists VUndef.
  assert (to_string (VStr "constructor") ∈ Object_prototype) as Hin
    by by left.
  split; [exact Hun|]. split; [exact Hin|].
  apply (inherited_id_throws (host := node) listening constructor_id
           (VStr "constructor") Hun eq_refl Hin). reflexivity.
Defined.

Lemma subscription_acknowledged_witness :
  ready (client connected) = true
  ∧ JSON_parse (Host := server) "ok"
    = Some (response 1 (VObj [("tick", VStr "ok")]))
  ∧ (perform (host := server) (engine := v8_objects) (fresh_session connected)
       [Subscribe "tick"; Do (Sent 0 VUndef); Do (Message "ok")]).2
    = [ socket_send
          (JSON_stringify (Host := server)
             (request "rpc.on" (VArr [VStr "tick"]) 1))
          (CallSent 1 1%nat);
        resolve 1%nat (VObj [("tick", VStr "ok")]);
        resolve 0%nat VUndef ].
Proof.
  split; [reflexivity|]. split; [reflexivity|].
  apply (subscription_acknowledged (host := server) (engine := v8_objects)
           (fresh_session connected) "tick" "ok" [("tick", VStr "ok")]);
    [reflexivity|discriminate|reflexivity|reflexivity].
Defined.

Lemma subscription_refused_witness :
  ready (client connected) = true
  ∧ JSON_parse (Host := server) "unknown"
    = Some (response 1 (VObj [("tick", VStr "unknown event")]))
  ∧ decimal (VStr "unknown event") = true
  ∧ (perform (host := server) (engine := v8_objects) (fresh_session connected)
       [Subscribe "tick"; Do (Sent 0 VUndef); Do (Message "unknown")]).2
    = [ socket_send
          (JSON_stringify (Host := server)
             (request "rpc.on" (VArr [VStr "tick"]) 1))
          (CallSent 1 1%nat);
        resolve 1%nat (VObj [("tick", VStr "unknown event")]);
        reject 0%nat
          (Error "Failed subscribing to an event with: unknown event") ]
  ∧ (perform (host := server) (engine := v8_objects) (fresh_session connected)
       [Unsubscribe "tick"; Do (Sent 0 VUndef); Do (Message "unknown")]).2
    = [ socket_send
          (JSON_stringify (Host := server)
             (request "rpc.off" (VArr [VStr "tick"]) 1))
          (CallSent 1 1%nat);
        resolve 1%nat (VObj [("tick", VStr "unknown event")]);
        reject 0%nat
          (Error "Failed unsubscribing from an event with: [object Object]") ].
Proof.
  split; [reflexivity|]. split; [reflexivity|]. split; [reflexivity|].
  destruct (subscription_refused (host := server) (engine := v8_objects)
              (fresh_session connected) "tick" "unknown"
              [("tick", VStr "unknown event")] (VStr "unknown event"))
    as (Hon & Hoff & _);
    [reflexivity|discriminate|reflexivity|reflexivity|reflexivity|].
  split; [exact (Hon eq_refl)|exact Hoff].
Defined.

Lemma subscription_without_result_witness :
  ready (client connected) = true
  ∧ JSON_parse (Host := server) "empty" = Some (VObj [("id", VNum 1)])
  ∧ (perform (host := server) (engine := v8_objects) (fresh_session connected)
       [Subscribe "tick"; Do (Sent 0 VUndef); Do (Message "empty")]).2
    = [ socket_send
          (JSON_stringify (Host := server)
             (request "rpc.on" (VArr [VStr "tick"]) 1))
          (CallSent 1 1%nat);
        resolve 1%nat VUndef;
        reject 0%nat TypeError ].
Proof.
  split; [reflexivity|]. split; [reflexivity|].
  apply (subscription_without_result (host := server) (engine := v8_objects)
           (fresh_session connected) "tick" "empty" (VObj [("id", VNum 1)]));
    [reflexivity|discriminate|reflexivity|by left].
Defined.

Lemma subscription_server_error_witness :
  ready (client connected) = true
  ∧ JSON_parse (Host := server) "failed"
    = Some (error_response 1 (VStr "no such method"))
  ∧ (perform (host := server) (engine := v8_objects) (fresh_session connected)
       [Subscribe "tick"; Do (Sent 0 VUndef); Do (Message "failed")]).2
    = [ socket_send
          (JSON_stringify (Host := server)
             (request "rpc.on" (VArr [VStr "tick"]) 1))
          (CallSent 1 1%nat);
        reject 1%nat (VStr "no such method");
        reject 0%nat (VStr "no such method") ].
Proof.
  split; [reflexivity|]. split; [reflexivity|].
  apply (subscription_server_error (host := server) (engine := v8_objects)
           (fresh_session connected) "tick" "failed" (VStr "no such method"));
    [reflexivity|discriminate|reflexivity|reflexivity].
Defined.

Lemma subscription_not_ready_witness :
  ready (client started) = false
  ∧ (act (host := node) (engine := v8_objects) (fresh_session started)
         (Subscribe "tick")).2
    = [ reject 1%nat (Error "socket not ready");
        reject 0%nat (Error "socket not ready") ].
Proof.
  split; [reflexivity|].
  apply (subscription_not_ready (host := node) (engine := v8_objects)
           (fresh_session started) "tick"). reflexivity.
Defined.
